(** * Invalidation-driven render pipeline of the charting engine

  A shallow embedding of the chart controller ([ChartWidget]), the series
  pane view base class ([SeriesPaneViewBase]), the line drawing helper
  ([drawLine]) and the price axis view ([PriceAxisView]), together with the
  properties of the natural-language specification that concern them.

  Conventions.
  - Pixel sizes (container height and width, pane heights, axis sizes) are
    integers, modelled as [Z]; stretch factors are rationals ([Q]), the
    arithmetic on them is exact and [Math.round] is rounding half up.  The
    special values of JavaScript numbers (NaN, the infinities) are outside
    this part of the model.
  - Canvas coordinates, whose finiteness the drawing helper tests, are
    binary64 floating-point numbers ([PrimFloat.float]).
  - Calls into collaborators whose code is not part of the sources (DOM,
    pane widgets, time axis widget, chart model) are recorded in a
    chronological trace of effects; a collaborator is taken to return
    without calling back into the controller.  [ChartModel.applyOptions],
    which does call back, is a parameter of [applyOptions].
  - The deltas and the position of a wheel event and the coordinates of a
    price axis view are rationals. *)

From Stdlib Require Import ZArith QArith Qround Qabs Qminmax Lia Lqa Bool List String.
From Stdlib Require PrimFloat.
From stdpp Require Import gmap list strings.

Local Open Scope Z_scope.

(** ** Invalidation mask *)

Module InvalidationLevel.

(** Modelled from the spec: the enumeration [InvalidationLevel] of
    [model/invalidate-mask] is missing from the sources; the spec gives the
    severity lattice [None < Light < Full]. *)
Inductive t : Set := None | Light | Full.

Definition rank (l : t) : Z :=
  match l with None => 0 | Light => 1 | Full => 2 end.

(** [Math.max] on two levels. *)
Definition max (a b : t) : t := if rank a <? rank b then b else a.

#[global] Instance eq_dec : EqDecision t.
Proof. solve_decision. Defined.

End InvalidationLevel.

(** Modelled from the spec: the pane-specific state returned by
    [invalidateForPane], [{level, autoscale}]. *)
Record PaneInvalidation : Set := mkPaneInvalidation {
  level : InvalidationLevel.t;
  autoScale : bool
}.

(** Modelled from the spec: the class [InvalidateMask] of
    [model/invalidate-mask] is missing from the sources.  A mask is a global
    severity, per-pane flags keyed by pane index and the global fit-content
    flag. *)
Record InvalidateMask : Type := mkInvalidateMask {
  severity : InvalidationLevel.t;
  paneFlags : gmap nat PaneInvalidation;
  fitContent : bool
}.

Module Mask.

(** Modelled from the spec: [new InvalidateMask(level)], a mask of the given
    global severity with no pane flag and no fit-content request. *)
Definition new (l : InvalidationLevel.t) : InvalidateMask :=
  {| severity := l; paneFlags := ∅; fitContent := false |}.

(** Modelled from the spec: the state two requests for one pane collapse
    into. *)
Definition mergePane (p q : PaneInvalidation) : PaneInvalidation :=
  {| level := InvalidationLevel.max (level p) (level q);
     autoScale := autoScale p || autoScale q |}.

(** Modelled from the spec: [merge(other)] is missing from the sources;
    "severity = max(self.severity, other.severity); per-pane flags = set
    union by pane index; fit-content = OR". *)
Definition merge (self other : InvalidateMask) : InvalidateMask :=
  {| severity := InvalidationLevel.max (severity self) (severity other);
     paneFlags :=
       union_with (λ p q, Some (mergePane p q)) (paneFlags self) (paneFlags other);
     fitContent := fitContent self || fitContent other |}.

(** Modelled from the spec: [fullInvalidation()], the global severity. *)
Definition fullInvalidation (m : InvalidateMask) : InvalidationLevel.t :=
  severity m.

(** Modelled from the spec: [getFitContent()]. *)
Definition getFitContent (m : InvalidateMask) : bool := fitContent m.

(** Modelled from the spec: [invalidateForPane(i)] "extracts the
    pane-specific state, defaulting unset panes to the mask's global
    severity (panes are never under-invalidated relative to the global
    level)". *)
Definition invalidateForPane (m : InvalidateMask) (i : nat) : PaneInvalidation :=
  match paneFlags m !! i with
  | Some p =>
      {| level := InvalidationLevel.max (severity m) (level p);
         autoScale := autoScale p |}
  | Datatypes.None => {| level := severity m; autoScale := false |}
  end.

(** The per-pane flag set of a mask: the panes whose autoscale is
    requested. *)
Definition autoscalePanes (m : InvalidateMask) : gset nat :=
  dom (filter (λ kv, autoScale kv.2 = true) (paneFlags m)).

End Mask.

(** ** The chart controller: data *)

(** A pane of the chart model, referenced by a stable handle; two panes are
    the same object exactly when their handles are equal. *)
Definition Pane : Set := nat.

Record Size : Set := mkSize { w : Z; h : Z }.

(** The part of a pane widget the controller reads back or assigns: the pane
    it shows ([state()], [setState]), its size ([setSize]) and the width of
    its price axis ([setPriceAxisSize]). *)
Record PaneWidget : Set := mkPaneWidget {
  pw_state : option Pane;
  pw_size : option Size;
  pw_priceAxisSize : option Z
}.

(** [new PaneSeparator(chart, topPaneIndex, bottomPaneIndex, disableResize)]. *)
Record PaneSeparator : Set := mkPaneSeparator {
  topPaneIndex : nat;
  bottomPaneIndex : nat
}.

Inductive PriceAxisPosition : Set := PositionLeft | PositionRight | PositionNone.

(** The chart options the controller reads. *)
Record ChartOptions : Set := mkChartOptions {
  options_width : Z;
  options_height : Z;
  priceScale_position : PriceAxisPosition;
  timeScale_visible : bool
}.

Definition priceScaleShown (o : ChartOptions) : bool :=
  match priceScale_position o with PositionNone => false | _ => true end.

(** The chart model, as far as the controller looks into it. *)
Record ChartModel : Set := mkChartModel { panes : list Pane }.

(** Calls into collaborators, in the order in which they happen. *)
Inductive Effect : Type :=
| RemoveWheelListener
| UnsubscribeModelEvents
| ModelDestroy
| PaneWidgetDestroy (pw : PaneWidget)
| SeparatorDestroy (s : PaneSeparator)
| TimeAxisWidgetDestroy
| ElementDetach
| DelegatesDestroy
| ElementStyleSize (height width : Z)
| PaneWidgetCreate (i : nat) (p : Pane)
| SeparatorCreate (s : PaneSeparator)
| PaneWidgetUpdatePriceAxisWidget (i : nat)
| TimeAxisVisibility (visible : bool)
| ModelSetPaneHeight (p : Pane) (height : Z)
| TimeAxisSetSizes (size : Size) (priceAxisWidth : Z)
| ModelSetWidth (width : Z)
| PriceAxisWidthChangedFire (width : Z)
| TimeScaleFitContent
| PaneMomentaryAutoScale (i : nat)
| TimeAxisWidgetUpdate
| PaneWidgetPaint (i : nat) (l : InvalidationLevel.t)
| TimeAxisWidgetPaint (l : InvalidationLevel.t).

(** The private fields of [ChartWidget]. [_element] is [false] once
    [delete this._element] has run. *)
Record ChartWidget : Type := mkChartWidget {
  _options : ChartOptions;
  _paneWidgets : list PaneWidget;
  _paneSeparators : list PaneSeparator;
  _model : ChartModel;
  _drawRafId : Z;
  _height : Z;
  _width : Z;
  _priceAxisWidth : Z;
  _element : bool;
  _invalidateMask : option InvalidateMask;
  _drawPlanned : bool
}.

(** The animation-frame service of the host window: handles are positive and
    never reused; [raf_pending] lists the requests that are scheduled and
    neither run nor cancelled. Every request of this controller carries the
    same closure, so a request is its handle. *)
Record Window : Set := mkWindow {
  raf_next : Z;
  raf_pending : list Z
}.

Record World : Type := mkWorld {
  chart : ChartWidget;
  window : Window;
  trace : list Effect
}.

Definition requestAnimationFrame (win : Window) : Z * Window :=
  (raf_next win,
   {| raf_next := raf_next win + 1; raf_pending := raf_pending win ++ [raf_next win] |}).

Definition cancelAnimationFrame (id : Z) (win : Window) : Window :=
  {| raf_next := raf_next win;
     raf_pending := filter (λ x, x ≠ id) (raf_pending win) |}.

Definition initialWindow : Window := {| raf_next := 1; raf_pending := [] |}.

(** Field updates. *)
Definition with_chart (f : ChartWidget → ChartWidget) (W : World) : World :=
  {| chart := f (chart W); window := window W; trace := trace W |}.

Definition emit (e : Effect) (W : World) : World :=
  {| chart := chart W; window := window W; trace := trace W ++ [e] |}.

Definition set_paneWidgets (v : list PaneWidget) (c : ChartWidget) : ChartWidget :=
  mkChartWidget (_options c) v (_paneSeparators c) (_model c) (_drawRafId c)
    (_height c) (_width c) (_priceAxisWidth c) (_element c) (_invalidateMask c)
    (_drawPlanned c).

Definition set_paneSeparators (v : list PaneSeparator) (c : ChartWidget) : ChartWidget :=
  mkChartWidget (_options c) (_paneWidgets c) v (_model c) (_drawRafId c)
    (_height c) (_width c) (_priceAxisWidth c) (_element c) (_invalidateMask c)
    (_drawPlanned c).

Definition set_drawRafId (v : Z) (c : ChartWidget) : ChartWidget :=
  mkChartWidget (_options c) (_paneWidgets c) (_paneSeparators c) (_model c) v
    (_height c) (_width c) (_priceAxisWidth c) (_element c) (_invalidateMask c)
    (_drawPlanned c).

Definition set_size (height width : Z) (c : ChartWidget) : ChartWidget :=
  mkChartWidget (_options c) (_paneWidgets c) (_paneSeparators c) (_model c)
    (_drawRafId c) height width (_priceAxisWidth c) (_element c)
    (_invalidateMask c) (_drawPlanned c).

Definition set_priceAxisWidth (v : Z) (c : ChartWidget) : ChartWidget :=
  mkChartWidget (_options c) (_paneWidgets c) (_paneSeparators c) (_model c)
    (_drawRafId c) (_height c) (_width c) v (_element c) (_invalidateMask c)
    (_drawPlanned c).

Definition set_element (v : bool) (c : ChartWidget) : ChartWidget :=
  mkChartWidget (_options c) (_paneWidgets c) (_paneSeparators c) (_model c)
    (_drawRafId c) (_height c) (_width c) (_priceAxisWidth c) v
    (_invalidateMask c) (_drawPlanned c).

Definition set_invalidateMask (v : option InvalidateMask) (c : ChartWidget) : ChartWidget :=
  mkChartWidget (_options c) (_paneWidgets c) (_paneSeparators c) (_model c)
    (_drawRafId c) (_height c) (_width c) (_priceAxisWidth c) (_element c) v
    (_drawPlanned c).

Definition set_drawPlanned (v : bool) (c : ChartWidget) : ChartWidget :=
  mkChartWidget (_options c) (_paneWidgets c) (_paneSeparators c) (_model c)
    (_drawRafId c) (_height c) (_width c) (_priceAxisWidth c) (_element c)
    (_invalidateMask c) v.

Definition setState (s : option Pane) (pw : PaneWidget) : PaneWidget :=
  {| pw_state := s; pw_size := pw_size pw; pw_priceAxisSize := pw_priceAxisSize pw |}.

Definition setSize (s : Size) (pw : PaneWidget) : PaneWidget :=
  {| pw_state := pw_state pw; pw_size := Some s; pw_priceAxisSize := pw_priceAxisSize pw |}.

Definition setPriceAxisSize (v : Z) (pw : PaneWidget) : PaneWidget :=
  {| pw_state := pw_state pw; pw_size := pw_size pw; pw_priceAxisSize := Some v |}.

(** [Math.round]: the nearest integer, halves rounded up. *)
Definition Math_round (q : Q) : Z := Qfloor (q + (1 # 2))%Q.

(** The result of a method that can throw: the world it leaves behind either
    way. *)
Inductive Outcome : Type :=
| Returned (W : World)
| Threw (W : World).

Definition worldOf (o : Outcome) : World :=
  match o with Returned W | Threw W => W end.

(** ** The chart controller: operations *)

(** What the sources import or call without defining it: the constant
    [SEPARATOR_HEIGHT] of [pane-separator], [PaneWidget.stretchFactor()],
    [ensureNotNull(paneWidget.priceAxisWidget()).optimalWidth()] (the price
    axis widget exists whenever the price scale is shown) and
    [TimeAxisWidget.optimalHeight()]. *)
Class Collaborators : Type := mkCollaborators {
  SEPARATOR_HEIGHT : Z;
  stretchFactor : PaneWidget → Q;
  optimalWidth : PaneWidget → Z;
  optimalHeight : Z
}.

Section Controller.

Context `{Collaborators}.

Definition _updateTimeAxisVisibility (W : World) : World :=
  emit (TimeAxisVisibility (timeScale_visible (_options (chart W)))) W.

(** First loop of [_adjustSizeImpl]. *)
Definition totalStretchOf (paneWidgets : list PaneWidget) : Q :=
  foldl (λ totalStretch paneWidget, (totalStretch + stretchFactor paneWidget)%Q)
    0%Q paneWidgets.

Definition priceAxisWidthOf (o : ChartOptions) (paneWidgets : list PaneWidget) : Z :=
  foldl (λ priceAxisWidth paneWidget,
           if priceScaleShown o
           then Z.max priceAxisWidth (optimalWidth paneWidget)
           else priceAxisWidth)
    0 paneWidgets.

Definition totalPaneHeightOf (c : ChartWidget) : Z :=
  let height := _height c in
  let separatorCount := Z.of_nat (length (_paneSeparators c)) in
  let separatorHeight := SEPARATOR_HEIGHT in
  let separatorsHeight := separatorHeight * separatorCount in
  let timeAxisHeight := if timeScale_visible (_options c) then optimalHeight else 0 in
  let otherWidgetHeight := separatorsHeight + timeAxisHeight in
  if height <? otherWidgetHeight then 0 else height - otherWidgetHeight.

(** The height [_adjustSizeImpl] computes for the pane at [paneIndex] of [n]
    pane widgets, before the minimum is applied. *)
Definition calculatePaneHeight (n paneIndex : nat) (totalPaneHeight accumulatedHeight : Z)
    (stretchPixels : Q) (paneWidget : PaneWidget) : Z :=
  if Z.of_nat paneIndex =? Z.of_nat n - 1
  then totalPaneHeight - accumulatedHeight
  else Math_round (stretchFactor paneWidget * stretchPixels).

(** Second loop of [_adjustSizeImpl], from [paneIndex] on: the pane widgets
    as the loop leaves them and the calls it makes on the model. *)
Fixpoint layoutLoop (o : ChartOptions) (modelPanes : list Pane) (n : nat)
    (paneWidth priceAxisWidth totalPaneHeight : Z) (stretchPixels : Q)
    (paneIndex : nat) (accumulatedHeight : Z) (todo : list PaneWidget)
    : list PaneWidget * list Effect :=
  match todo with
  | [] => ([], [])
  | paneWidget :: rest =>
      let paneWidget := setState (modelPanes !! paneIndex) paneWidget in
      let paneHeight :=
        Z.max (calculatePaneHeight n paneIndex totalPaneHeight accumulatedHeight
                 stretchPixels paneWidget) 2 in
      let accumulatedHeight := accumulatedHeight + paneHeight in
      let paneWidget := setSize (mkSize paneWidth paneHeight) paneWidget in
      let paneWidget :=
        if priceScaleShown o then setPriceAxisSize priceAxisWidth paneWidget
        else paneWidget in
      let calls :=
        match pw_state paneWidget with
        | Some p => [ModelSetPaneHeight p paneHeight]
        | None => []
        end in
      let r := layoutLoop o modelPanes n paneWidth priceAxisWidth totalPaneHeight
                 stretchPixels (S paneIndex) accumulatedHeight rest in
      (paneWidget :: fst r, calls ++ snd r)
  end.

Definition _adjustSizeImpl (W : World) : World :=
  let c := chart W in
  let totalStretch := totalStretchOf (_paneWidgets c) in
  let priceAxisWidth := priceAxisWidthOf (_options c) (_paneWidgets c) in
  let width := _width c in
  let paneWidth := Z.max (width - priceAxisWidth) 0 in
  let timeAxisHeight := if timeScale_visible (_options c) then optimalHeight else 0 in
  let totalPaneHeight := totalPaneHeightOf c in
  let stretchPixels := (inject_Z totalPaneHeight / totalStretch)%Q in
  let r := layoutLoop (_options c) (panes (_model c)) (length (_paneWidgets c))
             paneWidth priceAxisWidth totalPaneHeight stretchPixels
             0%nat 0 (_paneWidgets c) in
  let c := set_paneWidgets (fst r) c in
  let calls :=
    snd r ++ [TimeAxisSetSizes (mkSize paneWidth timeAxisHeight) priceAxisWidth;
              ModelSetWidth paneWidth] in
  if decide (_priceAxisWidth c ≠ priceAxisWidth)
  then {| chart := set_priceAxisWidth priceAxisWidth c;
          window := window W;
          trace := trace W ++ calls ++ [PriceAxisWidthChangedFire priceAxisWidth] |}
  else {| chart := c; window := window W; trace := trace W ++ calls |}.

(** One round of the removal loop of [_syncGuiWithModel]: pop the last pane
    widget and, if there is one, the last separator.  The loop pops no more
    widgets than the list holds, so [ensureDefined] does not throw. *)
Definition removeStep (W : World) : World :=
  match last (_paneWidgets (chart W)) with
  | None => W
  | Some paneWidget =>
      let W := with_chart (λ c, set_paneWidgets (removelast (_paneWidgets c)) c) W in
      let W := emit (PaneWidgetDestroy paneWidget) W in
      match last (_paneSeparators (chart W)) with
      | Some paneSeparator =>
          let W := with_chart (λ c, set_paneSeparators (removelast (_paneSeparators c)) c) W in
          emit (SeparatorDestroy paneSeparator) W
      | None => W
      end
  end.

(** One round of the creation loop of [_syncGuiWithModel]. *)
Definition createStep (i : nat) (W : World) : World :=
  match panes (_model (chart W)) !! i with
  | None => W
  | Some pane =>
      let paneWidget := mkPaneWidget (Some pane) None None in
      let W := emit (PaneWidgetCreate i pane) W in
      let W := with_chart (λ c, set_paneWidgets (_paneWidgets c ++ [paneWidget]) c) W in
      if (1 <? i)%nat
      then
        let paneSeparator := mkPaneSeparator (i - 1) i in
        let W := with_chart (λ c, set_paneSeparators (_paneSeparators c ++ [paneSeparator]) c) W in
        emit (SeparatorCreate paneSeparator) W
      else W
  end.

(** One round of the last loop of [_syncGuiWithModel]. *)
Definition syncStep (W : World) (i : nat) : World :=
  match _paneWidgets (chart W) !! i with
  | None => W
  | Some paneWidget =>
      let state := panes (_model (chart W)) !! i in
      if decide (pw_state paneWidget ≠ state)
      then with_chart
             (λ c, set_paneWidgets (<[i := setState state paneWidget]> (_paneWidgets c)) c) W
      else emit (PaneWidgetUpdatePriceAxisWidget i) W
  end.

Definition _syncGuiWithModel (W : World) : World :=
  let targetPaneWidgetsCount := length (panes (_model (chart W))) in
  let actualPaneWidgetsCount := length (_paneWidgets (chart W)) in
  let W := Nat.iter (actualPaneWidgetsCount - targetPaneWidgetsCount) removeStep W in
  let W := foldl (λ W i, createStep i W) W
             (seq actualPaneWidgetsCount (targetPaneWidgetsCount - actualPaneWidgetsCount)) in
  let W := foldl syncStep W (seq 0 targetPaneWidgetsCount) in
  let W := _updateTimeAxisVisibility W in
  _adjustSizeImpl W.

Definition _updateGui (W : World) : World := _syncGuiWithModel W.

(** [paint(invalidateMask?)]: an absent mask stands for a Full one. *)
Definition paint (invalidateMask : option InvalidateMask) (W : World) : World :=
  let invalidateMask := default (Mask.new InvalidationLevel.Full) invalidateMask in
  let W := foldl (λ W i, emit (PaneWidgetPaint i (level (Mask.invalidateForPane invalidateMask i))) W)
             W (seq 0 (length (_paneWidgets (chart W)))) in
  emit (TimeAxisWidgetPaint (Mask.fullInvalidation invalidateMask)) W.

Definition autoScaleStep (invalidateMask : InvalidateMask) (W : World) (i : nat) : World :=
  if autoScale (Mask.invalidateForPane invalidateMask i)
  then emit (PaneMomentaryAutoScale i) W
  else W.

Definition setStateStep (W : World) (i : nat) : World :=
  match _paneWidgets (chart W) !! i with
  | None => W
  | Some paneWidget =>
      with_chart
        (λ c, set_paneWidgets
                (<[i := setState (panes (_model c) !! i) paneWidget]> (_paneWidgets c)) c) W
  end.

Definition _drawImpl (invalidateMask : InvalidateMask) (W : World) : World :=
  let invalidationType := Mask.fullInvalidation invalidateMask in
  let W :=
    match invalidationType with
    | InvalidationLevel.Full =>
        let W := _updateGui W in
        let W := if Mask.getFitContent invalidateMask then emit TimeScaleFitContent W else W in
        let W := foldl (autoScaleStep invalidateMask) W
                   (seq 0 (length (panes (_model (chart W))))) in
        let W := emit TimeAxisWidgetUpdate W in
        foldl setStateStep W (seq 0 (length (_paneWidgets (chart W))))
    | InvalidationLevel.Light =>
        let W := if Mask.getFitContent invalidateMask then emit TimeScaleFitContent W else W in
        emit TimeAxisWidgetUpdate W
    | InvalidationLevel.None => W
    end in
  paint (Some invalidateMask) W.

(** The closure [_invalidateHandler] hands to [requestAnimationFrame]. *)
Definition drawCallback (W : World) : World :=
  let W := with_chart (set_drawPlanned false) W in
  let W := with_chart (set_drawRafId 0) W in
  match _invalidateMask (chart W) with
  | Some invalidateMask =>
      let W := _drawImpl invalidateMask W in
      with_chart (set_invalidateMask None) W
  | None => W
  end.

Definition _invalidateHandler (invalidateMask : InvalidateMask) (W : World) : World :=
  let W :=
    match _invalidateMask (chart W) with
    | Some pending =>
        with_chart (set_invalidateMask (Some (Mask.merge pending invalidateMask))) W
    | None => with_chart (set_invalidateMask (Some invalidateMask)) W
    end in
  if negb (_drawPlanned (chart W))
  then
    let W := with_chart (set_drawPlanned true) W in
    let r := requestAnimationFrame (window W) in
    {| chart := set_drawRafId (fst r) (chart W); window := snd r; trace := trace W |}
  else W.

(** The host runs an animation frame: every request pending at its start
    is taken off the list and its callback runs. *)
Definition runFrame (W : World) : World :=
  let due := raf_pending (window W) in
  let W := {| chart := chart W;
              window := {| raf_next := raf_next (window W); raf_pending := [] |};
              trace := trace W |} in
  foldl (λ W _, drawCallback W) W due.

(** Modelled from the spec: [ChartModel.fullUpdate()] is missing from the
    sources; the model "marks an Invalidation Mask and notifies the
    Controller", here with a mask of Full severity. *)
Definition fullUpdate (W : World) : World :=
  _invalidateHandler (Mask.new InvalidationLevel.Full) W.

(** [resize(height, width, forceRepaint = false)]. Touching the style of a
    deleted [_element] throws. *)
Definition resize (height width : Z) (forceRepaint : bool) (W : World) : Outcome :=
  if (_height (chart W) =? height) && (_width (chart W) =? width)
  then Returned W
  else
    let W := with_chart (set_size height width) W in
    if _element (chart W)
    then
      let W := emit (ElementStyleSize height width) W in
      if forceRepaint
      then Returned (_drawImpl (Mask.new InvalidationLevel.Full) W)
      else Returned (fullUpdate W)
    else Threw W.

Definition adjustSize (W : World) : World := fullUpdate (_adjustSizeImpl W).

(** [destroy()]. Removing the wheel listener from a deleted [_element]
    throws. *)
Definition destroy (W : World) : Outcome :=
  if _element (chart W)
  then
    let W := emit RemoveWheelListener W in
    let W :=
      if decide (_drawRafId (chart W) ≠ 0)
      then {| chart := chart W;
              window := cancelAnimationFrame (_drawRafId (chart W)) (window W);
              trace := trace W |}
      else W in
    let W := emit UnsubscribeModelEvents W in
    let W := emit ModelDestroy W in
    let W := foldl (λ W paneWidget, emit (PaneWidgetDestroy paneWidget) W) W
               (_paneWidgets (chart W)) in
    let W := with_chart (set_paneWidgets []) W in
    let W := foldl (λ W paneSeparator, emit (SeparatorDestroy paneSeparator) W) W
               (_paneSeparators (chart W)) in
    let W := with_chart (set_paneSeparators []) W in
    let W := emit TimeAxisWidgetDestroy W in
    let W := emit ElementDetach W in
    let W := emit DelegatesDestroy W in
    Returned (with_chart (set_element false) W)
  else Threw W.

(** [new ChartWidget(container, options)], the model being created with
    the given panes; [containerWidth] and [containerHeight] are the sides
    of [container.getBoundingClientRect()]. *)
Definition construct (containerWidth containerHeight : Z) (options : ChartOptions)
    (modelPanes : list Pane) (win : Window) : World :=
  let c := mkChartWidget options [] [] (mkChartModel modelPanes) 0 0 0 0 true None false in
  let W := {| chart := c; window := win; trace := [] |} in
  let width := options_width options in
  let height := options_height options in
  let zero := (width =? 0) && (height =? 0) in
  let width := if zero then containerWidth else width in
  let height := if zero then containerHeight else height in
  let width := Z.max 70 width in
  let height := Z.max 50 height in
  let W := worldOf (resize height width false W) in
  let W := _syncGuiWithModel W in
  _updateTimeAxisVisibility W.

(** What can happen to a chart widget once it is constructed. *)
Inductive Event : Type :=
| Invalidate (invalidateMask : InvalidateMask)
| Frame
| Resize (height width : Z) (forceRepaint : bool)
| AdjustSize
| Destroy.

Definition step (W : World) (e : Event) : World :=
  match e with
  | Invalidate invalidateMask => _invalidateHandler invalidateMask W
  | Frame => runFrame W
  | Resize height width forceRepaint => worldOf (resize height width forceRepaint W)
  | AdjustSize => adjustSize W
  | Destroy => worldOf (destroy W)
  end.

Inductive reachable : World → Prop :=
  | reachable_construct containerWidth containerHeight options modelPanes win :
      0 < raf_next win →
      raf_pending win = [] →
      reachable (construct containerWidth containerHeight options modelPanes win)
  | reachable_step W e :
      reachable W → reachable (step W e).

(** The two states of the controller. *)
Inductive ControllerState : Set := Idle | PaintScheduled.

Definition controllerState (W : World) : ControllerState :=
  if _drawPlanned (chart W) then PaintScheduled else Idle.

(** The world [_syncGuiWithModel] hands to [_adjustSizeImpl]. *)
Definition beforeLayout (W : World) : World :=
  let targetPaneWidgetsCount := length (panes (_model (chart W))) in
  let actualPaneWidgetsCount := length (_paneWidgets (chart W)) in
  _updateTimeAxisVisibility
    (foldl syncStep
       (foldl (λ W i, createStep i W)
          (Nat.iter (actualPaneWidgetsCount - targetPaneWidgetsCount) removeStep W)
          (seq actualPaneWidgetsCount (targetPaneWidgetsCount - actualPaneWidgetsCount)))
       (seq 0 targetPaneWidgetsCount)).

(** The pane widgets as a layout recomputation leaves them. *)
Definition laidOut (W : World) : list PaneWidget :=
  _paneWidgets (chart (_adjustSizeImpl W)).

(** The height of the separators and of the time axis together. *)
Definition otherWidgetHeight (c : ChartWidget) : Z :=
  SEPARATOR_HEIGHT * Z.of_nat (length (_paneSeparators c))
  + (if timeScale_visible (_options c) then optimalHeight else 0).

(** The masks raised one after the other, each through [_invalidateHandler]. *)
Definition raise (masks : list InvalidateMask) (W : World) : World :=
  foldl (λ W m, _invalidateHandler m W) W masks.

End Controller.

Arguments _adjustSizeImpl : simpl never.
Arguments _syncGuiWithModel : simpl never.
Arguments paint : simpl never.
Arguments _drawImpl : simpl never.
Arguments drawCallback : simpl never.
Arguments _invalidateHandler : simpl never.
Arguments runFrame : simpl never.
Arguments resize : simpl never.
Arguments destroy : simpl never.

(** ** The vocabulary of the properties *)

(** The scheduling side of a world: the animation-frame service, the fields
    of the controller that schedule paints, and the fields that drawing only
    reads. *)
Definition control (W : World) :=
  (window W, _drawPlanned (chart W), _drawRafId (chart W), _invalidateMask (chart W),
   (_element (chart W), _height (chart W), _width (chart W), _options (chart W),
    _model (chart W))).

(** At most the request whose handle the controller stores is pending; an
    idle controller stores no handle, has no request pending and no mask; a
    controller that planned a draw has a mask. *)
Record scheduled_ok (W : World) : Prop := mkScheduledOk {
  ok_next : 0 < raf_next (window W);
  ok_pending :
    raf_pending (window W) = [] ∨
    (_drawPlanned (chart W) = true ∧
     raf_pending (window W) = [_drawRafId (chart W)] ∧
     0 < _drawRafId (chart W) < raf_next (window W));
  ok_idle :
    _drawPlanned (chart W) = false →
    _drawRafId (chart W) = 0 ∧ raf_pending (window W) = [] ∧
    _invalidateMask (chart W) = None;
  ok_planned :
    _drawPlanned (chart W) = true → is_Some (_invalidateMask (chart W))
}.

(** Every pending request, and every request still to be made, has a handle
    of at least [n]. *)
Definition fresh_from (n : Z) (W : World) : Prop :=
  n ≤ raf_next (window W) ∧ ∀ id, id ∈ raf_pending (window W) → n ≤ id.

(** The world in which the paint callback starts its work: the request that
    fired is no longer pending and the controller is idle again. *)
Definition callbackStart (W : World) : World :=
  {| chart := set_drawRafId 0 (set_drawPlanned false (chart W));
     window := {| raf_next := raf_next (window W); raf_pending := [] |};
     trace := trace W |}.

(** The world after [resize] has stored the new dimensions and set the
    styles of the element and of the table. *)
Definition resized (height width : Z) (W : World) : World :=
  emit (ElementStyleSize height width) (with_chart (set_size height width) W).

(** The height assigned to a pane widget (0 when none was assigned). *)
Definition paneHeight (paneWidget : PaneWidget) : Z :=
  match pw_size paneWidget with Some s => h s | None => 0 end.

Definition sumHeights (paneWidgets : list PaneWidget) : Z :=
  foldr (λ paneWidget acc, paneHeight paneWidget + acc) 0 paneWidgets.

(** The calls a draw makes for the fit-content request, for the autoscale
    requests of the first [n] panes, and to paint [n] pane widgets and the
    time axis. *)
Definition fitContentCalls (m : InvalidateMask) : list Effect :=
  if Mask.getFitContent m then [TimeScaleFitContent] else [].

Definition autoScaleCalls (m : InvalidateMask) (n : nat) : list Effect :=
  flat_map (λ i, if autoScale (Mask.invalidateForPane m i)
                 then [PaneMomentaryAutoScale i] else [])
    (seq 0 n).

Definition paintCalls (m : InvalidateMask) (n : nat) : list Effect :=
  map (λ i, PaneWidgetPaint i (level (Mask.invalidateForPane m i))) (seq 0 n)
  ++ [TimeAxisWidgetPaint (Mask.fullInvalidation m)].

(** ** The series pane view base class *)

Module SeriesPaneViewBase.

Section View.

(** The types the sources import without defining them: the items of a
    view ([ItemType extends TimedValue]), the visible bars of the time
    scale, [SeriesItemsIndexesRange] and the first value of a series. *)
Context {ItemType BarsRange SeriesItemsIndexesRange PriceValue : Type}.

(** What the view reads off the price scale, the time scale, the series
    and the chart model it refers to, at the time of a call:
    [isEmpty()], [visibleBars()], [data().bars().size()] and
    [firstValue()]. *)
Record PriceScale : Type := mkPriceScale { priceScale_isEmpty : bool }.

Record TimeScale : Type := mkTimeScale {
  timeScale_isEmpty : bool;
  visibleBars : option BarsRange
}.

Record Series : Type := mkSeries {
  priceScale : PriceScale;
  bars_size : nat;
  firstValue : option PriceValue
}.

Record Model : Type := mkModel { timeScale : TimeScale }.

(** The calls a view makes on its own methods, in order. *)
Inductive Call : Set := FillRawPoints | UpdatePoints | ConvertToCoordinates.

Record t : Type := mk {
  _invalidated : bool;
  _dataInvalidated : bool;
  _items : list ItemType;
  _itemsVisibleRange : option SeriesItemsIndexesRange;
  calls : list Call
}.

(** The abstract methods of the class, which a subclass supplies, and
    [visibleTimedValues] of [model/time-data]. *)
Class Subclass : Type := mkSubclass {
  _fillRawPoints : Series → list ItemType → list ItemType;
  _convertToCoordinates :
    PriceScale → TimeScale → PriceValue → option SeriesItemsIndexesRange →
    list ItemType → list ItemType;
  visibleTimedValues : list ItemType → BarsRange → SeriesItemsIndexesRange
}.

Context `{Subclass}.

(** The field initialisers of the class. *)
Definition new : t :=
  {| _invalidated := true; _dataInvalidated := true; _items := [];
     _itemsVisibleRange := None; calls := [] |}.

Inductive Result : Type :=
| Returned (v : t)
| Threw (v : t).

Definition called (c : Call) (v : t) : t :=
  mk (_invalidated v) (_dataInvalidated v) (_items v) (_itemsVisibleRange v)
    (calls v ++ [c]).

Definition set_invalidated (b : bool) (v : t) : t :=
  mk b (_dataInvalidated v) (_items v) (_itemsVisibleRange v) (calls v).

Definition set_dataInvalidated (b : bool) (v : t) : t :=
  mk (_invalidated v) b (_items v) (_itemsVisibleRange v) (calls v).

Definition set_items (l : list ItemType) (v : t) : t :=
  mk (_invalidated v) (_dataInvalidated v) l (_itemsVisibleRange v) (calls v).

Definition set_itemsVisibleRange (r : option SeriesItemsIndexesRange) (v : t) : t :=
  mk (_invalidated v) (_dataInvalidated v) (_items v) r (calls v).

(** [update(updateType?)]; an omitted argument is [None]. *)
Definition update (updateType : option string) (v : t) : t :=
  let v := set_invalidated true v in
  if decide (updateType = Some "data"%string)
  then set_dataInvalidated true v
  else v.

(** [_updatePoints()]; [ensureNotNull] throws on a null first value. *)
Definition _updatePoints (series : Series) (model : Model) (v : t) : Result :=
  let v := called UpdatePoints v in
  let priceScale := priceScale series in
  let timeScale := timeScale model in
  if timeScale_isEmpty timeScale || priceScale_isEmpty priceScale
  then Returned (set_itemsVisibleRange None v)
  else
    match visibleBars timeScale with
    | None => Returned (set_itemsVisibleRange None v)
    | Some visibleBars =>
        if (bars_size series =? 0)%nat
        then Returned (set_itemsVisibleRange None v)
        else
          let v := set_itemsVisibleRange
                     (Some (visibleTimedValues (_items v) visibleBars)) v in
          match firstValue series with
          | None => Threw v
          | Some firstValue =>
              let v := called ConvertToCoordinates v in
              Returned
                (set_items
                   (_convertToCoordinates priceScale timeScale firstValue
                      (_itemsVisibleRange v) (_items v)) v)
          end
    end.

(** [_makeValid()]. *)
Definition _makeValid (series : Series) (model : Model) (v : t) : Result :=
  let v :=
    if _dataInvalidated v
    then
      let v := called FillRawPoints v in
      let v := set_items (_fillRawPoints series (_items v)) v in
      set_dataInvalidated false v
    else v in
  if _invalidated v
  then
    match _updatePoints series model v with
    | Returned v => Returned (set_invalidated false v)
    | Threw v => Threw v
    end
  else Returned v.

(** One of the conditions under which there is nothing to show: the time
    scale is empty, the price scale is empty, there are no visible bars, or
    the series stores no bar. *)
Definition nothingToShow (series : Series) (model : Model) : bool :=
  timeScale_isEmpty (timeScale model)
  || priceScale_isEmpty (priceScale series)
  || bool_decide (visibleBars (timeScale model) = None)
  || bool_decide (bars_size series = 0%nat).

(** The view a call leaves behind, whether it returned or threw. *)
Definition viewOf (r : Result) : t :=
  match r with Returned v | Threw v => v end.

(** The calls [_makeValid] makes on a view with the given flags. *)
Definition resolutionCalls (series : Series) (model : Model) (v : t) : list Call :=
  (if _dataInvalidated v then [FillRawPoints] else [])
  ++ (if _invalidated v
      then UpdatePoints ::
           (if nothingToShow series model then []
            else if firstValue series is Some _ then [ConvertToCoordinates] else [])
      else []).

End View.

Arguments t : clear implicits.
Arguments Result : clear implicits.
Arguments Series : clear implicits.
Arguments TimeScale : clear implicits.
Arguments Model : clear implicits.
Arguments Subclass : clear implicits.

End SeriesPaneViewBase.

(** ** Drawing a line *)

Module DrawLine.

Section Canvas.

Import PrimFloat.

Inductive LineStyle : Set := Solid | Dotted | Dashed | LargeDashed | SparseDotted.

(** The calls made on a [CanvasRenderingContext2D], in order. *)
Inductive CanvasCall : Set :=
| save
| setLineDash (segments : list float)
| beginPath
| moveTo (x y : float)
| lineTo (x y : float)
| stroke
| restore.

Record CanvasRenderingContext2D : Set := mkCtx {
  lineWidth : float;
  canvasCalls : list CanvasCall
}.

Definition call (c : CanvasCall) (ctx : CanvasRenderingContext2D) : CanvasRenderingContext2D :=
  {| lineWidth := lineWidth ctx; canvasCalls := canvasCalls ctx ++ [c] |}.

(** The global [isFinite] on a number. *)
Definition isFinite (x : float) : bool := is_finite x.

Definition dashPatterns (ctx : CanvasRenderingContext2D) (style : LineStyle) : list float :=
  match style with
  | Solid => []
  | Dotted => [lineWidth ctx; 2 * lineWidth ctx]
  | Dashed => [5 * lineWidth ctx; 6 * lineWidth ctx]
  | LargeDashed => [6 * lineWidth ctx; 6 * lineWidth ctx]
  | SparseDotted => [lineWidth ctx; 4 * lineWidth ctx]
  end%float.

Definition setLineStyle (ctx : CanvasRenderingContext2D) (style : LineStyle)
    : CanvasRenderingContext2D :=
  let dashPattern := dashPatterns ctx style in
  call (setLineDash dashPattern) ctx.

Definition drawLine (ctx : CanvasRenderingContext2D) (x1 y1 x2 y2 : float)
    (lineStyle : LineStyle) : CanvasRenderingContext2D :=
  if negb (isFinite x1) || negb (isFinite x2) || negb (isFinite y1) || negb (isFinite y2)
  then ctx
  else
    let ctx := call save ctx in
    let ctx := setLineStyle ctx lineStyle in
    let ctx := call beginPath ctx in
    let ctx := call (moveTo x1 y1) ctx in
    let ctx := call (lineTo x2 y2) ctx in
    let ctx := call stroke ctx in
    call restore ctx.

End Canvas.

End DrawLine.

(** ** The price axis view *)

Module PriceAxisView.

Section View.

(** [parseRgb] and [rgbToBlackWhiteString] of [helpers/color], which the
    sources import without defining them; [None] stands for a thrown
    error. *)
Context {Rgb : Type}.
Variable parseRgb : string → option Rgb.
Variable rgbToBlackWhiteString : Rgb → Z → option string.

(** The state of a price axis view that the text colour could depend on:
    the common renderer data and the invalidation flag. *)
Record t : Set := mk {
  background_ : string;
  color_ : string;
  coordinate_ : Z;
  _invalidated : bool
}.

(** The field initialisers of the class. *)
Definition new : t :=
  {| background_ := "#000"; color_ := "#FFF"; coordinate_ := 0; _invalidated := true |}.

Definition background (this : t) : string := background_ this.

(** [generateTextColor(color)]: the result, if the helpers return, and
    the view afterwards. *)
Definition generateTextColor (this : t) (color : string) : option string * t :=
  (rgb ← parseRgb color;
   backColorBW ← rgbToBlackWhiteString rgb 160;
   Some (if decide (backColorBW = "black"%string) then "white" else "black")%string,
   this).

Definition color (this : t) : option string * t :=
  generateTextColor this (background this).

Definition update (this : t) : t :=
  mk (background_ this) (color_ this) (coordinate_ this) true.

(** The background quantized to black or white under the threshold 160. *)
Definition quantized (color : string) : option string :=
  rgb ← parseRgb color; rgbToBlackWhiteString rgb 160.

End View.

End PriceAxisView.

(** ** The chart controller: pointer input and options *)

(** [Math.sign] of a number. *)
Definition Math_sign (q : Q) : Q :=
  match (q ?= 0)%Q with Gt => 1%Q | Lt => (-1)%Q | Eq => 0%Q end.

(** The fields of a [WheelEvent] that [_onMousewheel] reads. *)
Record WheelEvent : Set := mkWheelEvent {
  deltaX : Q;
  deltaY : Q;
  deltaMode : Z;
  clientX : Q
}.

(** The constants [DOM_DELTA_LINE] and [DOM_DELTA_PAGE] of a wheel event. *)
Definition DOM_DELTA_LINE : Z := 1.
Definition DOM_DELTA_PAGE : Z := 2.

(** [options.handleScroll.mouseWheel] and [options.handleScale.mouseWheel]. *)
Record HandleOptions : Set := mkHandleOptions {
  handleScroll_mouseWheel : bool;
  handleScale_mouseWheel : bool
}.

(** What [_onMousewheel] calls on the event and on the model. *)
Inductive WheelCall : Set :=
| PreventDefault
| ZoomTime (scrollPosition zoomScale : Q)
| ScrollChart (x : Q).

(** [_onMousewheel(event)] on a chart whose element is in place (destroy
    removes the listener); [elementLeft] is the left side of
    [this._element.getBoundingClientRect()]. *)
Definition _onMousewheel (o : HandleOptions) (elementLeft : Q) (event : WheelEvent)
    : list WheelCall :=
  let deltaX := (deltaX event / 100)%Q in
  let deltaY := (- (deltaY event / 100))%Q in
  if (Qeq_bool deltaX 0 || negb (handleScroll_mouseWheel o))
     && (Qeq_bool deltaY 0 || negb (handleScale_mouseWheel o))
  then []
  else
    let factor :=
      if deltaMode event =? DOM_DELTA_PAGE then 120%Q
      else if deltaMode event =? DOM_DELTA_LINE then 32%Q
      else 1%Q in
    let deltaX := (deltaX * factor)%Q in
    let deltaY := (deltaY * factor)%Q in
    [PreventDefault]
    ++ (if negb (Qeq_bool deltaY 0) && handleScale_mouseWheel o
        then
          let zoomScale := (Math_sign deltaY * Qmin 1 (Qabs deltaY))%Q in
          let scrollPosition := (clientX event - elementLeft)%Q in
          [ZoomTime scrollPosition zoomScale]
        else [])
    ++ (if negb (Qeq_bool deltaX 0) && handleScroll_mouseWheel o
        then [ScrollChart (deltaX * -80)%Q]
        else []).

Record Point : Set := mkPoint { x : Q; y : Q }.

(** A series of the chart model, referenced by a stable handle. *)
Definition SeriesId : Set := nat.

(** What [_getMouseEventParamsImpl] asks of the model: its series,
    [s.data().valueAt(time)] with the bar's [value], [s.barFunction()] and
    [timeScale().indexToUserTime(time)]. *)
Class MouseModel (BarValue TimePoint : Type) : Type := mkMouseModel {
  serieses : list SeriesId;
  valueAt : SeriesId → Z → option BarValue;
  barFunction : SeriesId → BarValue → Q;
  indexToUserTime : Z → option TimePoint
}.

Record MouseEventParamsImpl (TimePoint : Type) : Type := mkMouseEventParamsImpl {
  time : option TimePoint;
  point : option Point;
  seriesPrices : gmap SeriesId Q
}.

Arguments time {TimePoint}.
Arguments point {TimePoint}.
Arguments seriesPrices {TimePoint}.

Section MouseEvents.

Context {BarValue TimePoint : Type} `{!MouseModel BarValue TimePoint}.

(** [_getMouseEventParamsImpl(time, point)]. *)
Definition _getMouseEventParamsImpl (time : option Z) (point : option Point)
    : MouseEventParamsImpl TimePoint :=
  let seriesPrices :=
    match time with
    | Some time =>
        foldl (λ seriesPrices s,
                 match valueAt s time with
                 | Some prices => <[s := barFunction s prices]> seriesPrices
                 | None => seriesPrices
                 end)
          ∅ serieses
    | None => ∅
    end in
  let clientTime := time ≫= indexToUserTime in
  {| time := clientTime; point := point; seriesPrices := seriesPrices |}.

End MouseEvents.

(** The part of a [DeepPartial<ChartOptions>] that [applyOptions] reads. *)
Record PartialChartOptions : Set := mkPartialChartOptions {
  partial_width : option Z;
  partial_height : option Z
}.

(** The calls [applyOptions] makes on the model and on the first pane
    widget. *)
Inductive OptionsCall : Set :=
| ModelApplyOptions (options : PartialChartOptions)
| PaneWidgetUpdateBranding.

(** [options.width || this._width]: an omitted or zero number gives way. *)
Definition orElse (v : option Z) (d : Z) : Z :=
  match v with
  | Some n => if n =? 0 then d else n
  | None => d
  end.

Section ApplyOptions.

Context `{Collaborators}.

(** What [ChartModel.applyOptions] does to the world, the options object it
    shares with the chart widget and the invalidations it raises included;
    its code is not part of the sources. *)
Variable modelApplyOptions : PartialChartOptions → World → World.

(** [applyOptions(options)]: the calls made first, then the outcome.
    [this._paneWidgets[0]] is undefined on a chart without pane widgets, and
    calling its method throws. *)
Definition applyOptions (options : PartialChartOptions) (W : World)
    : list OptionsCall * Outcome :=
  let W := modelApplyOptions options W in
  match _paneWidgets (chart W) !! 0%nat with
  | None => ([ModelApplyOptions options], Threw W)
  | Some _ =>
      let W := _updateTimeAxisVisibility W in
      let width := orElse (partial_width options) (_width (chart W)) in
      let height := orElse (partial_height options) (_height (chart W)) in
      ([ModelApplyOptions options; PaneWidgetUpdateBranding], resize height width false W)
  end.

End ApplyOptions.

(** ** The price axis view: renderer data *)

Module PriceAxisViewClass.

(** [PriceAxisViewRendererCommonData]. *)
Record CommonData : Set := mkCommonData {
  c_activeBackground : option string;
  c_background : string;
  c_borderColor : option string;
  c_color : string;
  c_coordinate : Q;
  c_floatCoordinate : option Q;
  c_fixedCoordinate : option Q
}.

(** [PriceAxisViewRendererData]. *)
Record RendererData : Set := mkRendererData {
  d_visible : bool;
  d_text : string;
  d_tickVisible : bool;
  d_borderVisible : bool;
  d_lineWidth : option Z;
  d_lineStyle : DrawLine.LineStyle
}.

(** The calls a view makes on its abstract method and on its renderers. *)
Inductive Call : Set := UpdateRendererData | AxisRendererSetData | PaneRendererSetData.

#[global] Instance call_eq_dec : EqDecision Call.
Proof. solve_decision. Defined.

Inductive Renderer : Set := AxisRenderer | PaneRenderer.

Record t : Set := mk {
  _commonRendererData : CommonData;
  _axisRendererData : RendererData;
  _paneRendererData : RendererData;
  _invalidated : bool;
  calls : list Call
}.

(** The field initialisers of the class. *)
Definition new : t :=
  {| _commonRendererData :=
       mkCommonData None "#000" None "#FFF" 0 None None;
     _axisRendererData := mkRendererData false "" true true None DrawLine.Dotted;
     _paneRendererData := mkRendererData false "" false false None DrawLine.Dotted;
     _invalidated := true;
     calls := [] |}.

(** A method of the view: its result and the view it leaves. *)
Definition M (A : Type) : Type := t → A * t.

Definition ret {A} (a : A) : M A := λ this, (a, this).

Definition bind {A B} (m : M A) (k : A → M B) : M B :=
  λ this, let r := m this in k (fst r) (snd r).

Definition gets {A} (f : t → A) : M A := λ this, (f this, this).

Definition called (c : Call) : M unit :=
  λ this,
    (tt, mk (_commonRendererData this) (_axisRendererData this) (_paneRendererData this)
           (_invalidated this) (calls this ++ [c])).

Section View.

(** The abstract method [_updateRendererData], which rewrites the three data
    objects it is given. *)
Variable _updateRendererData :
  RendererData → RendererData → CommonData → RendererData * RendererData * CommonData.

Definition text (this : t) : string := d_text (_axisRendererData this).

Definition background (this : t) : string := c_background (_commonRendererData this).

Definition update (this : t) : t :=
  mk (_commonRendererData this) (_axisRendererData this) (_paneRendererData this)
    true (calls this).

Definition _updateRendererDataIfNeeded : M unit :=
  λ this,
    if _invalidated this
    then
      let r := _updateRendererData (_axisRendererData this) (_paneRendererData this)
                 (_commonRendererData this) in
      (tt, mk (snd r) (fst (fst r)) (snd (fst r)) false (calls this ++ [UpdateRendererData]))
    else (tt, this).

Definition coordinate : M Q :=
  bind _updateRendererDataIfNeeded
    (λ _, gets (λ this, c_coordinate (_commonRendererData this))).

(** [floatCoordinate || coordinate]: a float coordinate that is omitted or
    zero gives way. *)
Definition floatCoordinate : M Q :=
  bind _updateRendererDataIfNeeded
    (λ _, gets (λ this,
       match c_floatCoordinate (_commonRendererData this) with
       | Some f => if Qeq_bool f 0 then c_coordinate (_commonRendererData this) else f
       | None => c_coordinate (_commonRendererData this)
       end)).

(** [fixedCoordinate || 0]. *)
Definition getFixedCoordinate (this : t) : Q :=
  match c_fixedCoordinate (_commonRendererData this) with
  | Some f => if Qeq_bool f 0 then 0%Q else f
  | None => 0%Q
  end.

Definition setFixedCoordinate (value : Q) (this : t) : t :=
  let c := _commonRendererData this in
  mk (mkCommonData (c_activeBackground c) (c_background c) (c_borderColor c) (c_color c)
        (c_coordinate c) (c_floatCoordinate c) (Some value))
    (_axisRendererData this) (_paneRendererData this) (_invalidated this) (calls this).

Definition isVisible : M bool :=
  bind _updateRendererDataIfNeeded
    (λ _, gets (λ this, d_visible (_axisRendererData this)
                        || d_visible (_paneRendererData this))).

Definition isAxisLabelVisible : M bool :=
  bind _updateRendererDataIfNeeded
    (λ _, gets (λ this, d_visible (_axisRendererData this))).

Definition isPaneLabelVisible : M bool :=
  bind _updateRendererDataIfNeeded
    (λ _, gets (λ this, d_visible (_paneRendererData this))).

Definition renderer : M Renderer :=
  bind _updateRendererDataIfNeeded
    (λ _, bind (called AxisRendererSetData)
       (λ _, bind (called PaneRendererSetData) (λ _, ret AxisRenderer))).

Definition paneRenderer : M Renderer :=
  bind _updateRendererDataIfNeeded
    (λ _, bind (called AxisRendererSetData)
       (λ _, bind (called PaneRendererSetData) (λ _, ret PaneRenderer))).

(** The methods that bring the renderer data up to date before they answer. *)
Inductive Reader : Set :=
| ReadCoordinate
| ReadFloatCoordinate
| ReadIsVisible
| ReadIsAxisLabelVisible
| ReadIsPaneLabelVisible
| ReadRenderer
| ReadPaneRenderer.

(** The view a reader leaves. *)
Definition after (r : Reader) (this : t) : t :=
  match r with
  | ReadCoordinate => snd (coordinate this)
  | ReadFloatCoordinate => snd (floatCoordinate this)
  | ReadIsVisible => snd (isVisible this)
  | ReadIsAxisLabelVisible => snd (isAxisLabelVisible this)
  | ReadIsPaneLabelVisible => snd (isPaneLabelVisible this)
  | ReadRenderer => snd (renderer this)
  | ReadPaneRenderer => snd (paneRenderer this)
  end.

End View.

End PriceAxisViewClass.

(** ** Sequences of calls *)

(** The updates of a pane view, one after the other. *)
Definition updateAll {ItemType SeriesItemsIndexesRange : Type}
    (updateTypes : list (option string))
    (v : SeriesPaneViewBase.t ItemType SeriesItemsIndexesRange)
    : SeriesPaneViewBase.t ItemType SeriesItemsIndexesRange :=
  foldl (λ v updateType, SeriesPaneViewBase.update updateType v) v updateTypes.

(** The segments of a list, each drawn with [drawLine]. *)
Definition drawLines (ctx : DrawLine.CanvasRenderingContext2D)
    (segments : list (PrimFloat.float * PrimFloat.float * PrimFloat.float * PrimFloat.float))
    (lineStyle : DrawLine.LineStyle) : DrawLine.CanvasRenderingContext2D :=
  foldl (λ ctx '(x1, y1, x2, y2), DrawLine.drawLine ctx x1 y1 x2 y2 lineStyle) ctx segments.

(** Whether the four coordinates of a segment are finite. *)
Definition segmentFinite
    (segment : PrimFloat.float * PrimFloat.float * PrimFloat.float * PrimFloat.float) : bool :=
  let '(x1, y1, x2, y2) := segment in
  DrawLine.isFinite x1 && DrawLine.isFinite y1 && DrawLine.isFinite x2 && DrawLine.isFinite y2.

(** The readers of a price axis view, one after the other. *)
Definition readAll
    (_updateRendererData :
       PriceAxisViewClass.RendererData → PriceAxisViewClass.RendererData →
       PriceAxisViewClass.CommonData →
       PriceAxisViewClass.RendererData * PriceAxisViewClass.RendererData
       * PriceAxisViewClass.CommonData)
    (readers : list PriceAxisViewClass.Reader) (this : PriceAxisViewClass.t)
    : PriceAxisViewClass.t :=
  foldl (λ this r, PriceAxisViewClass.after _updateRendererData r this) this readers.

(** The three data objects of a price axis view. *)
Definition dataOf (this : PriceAxisViewClass.t) :=
  (PriceAxisViewClass._axisRendererData this, PriceAxisViewClass._paneRendererData this,
   PriceAxisViewClass._commonRendererData this).

(** How often a price axis view has called [_updateRendererData]. *)
Definition updateCalls (this : PriceAxisViewClass.t) : nat :=
  length (filter (λ c, c = PriceAxisViewClass.UpdateRendererData)
            (PriceAxisViewClass.calls this)).

(** The calls [drawLine] makes for a segment with finite coordinates. *)
Definition segmentCalls (ctx : DrawLine.CanvasRenderingContext2D)
    (segment : PrimFloat.float * PrimFloat.float * PrimFloat.float * PrimFloat.float)
    (lineStyle : DrawLine.LineStyle) : list DrawLine.CanvasCall :=
  let '(x1, y1, x2, y2) := segment in
  [DrawLine.save; DrawLine.setLineDash (DrawLine.dashPatterns ctx lineStyle);
   DrawLine.beginPath; DrawLine.moveTo x1 y1; DrawLine.lineTo x2 y2;
   DrawLine.stroke; DrawLine.restore].

Definition isStroke (c : DrawLine.CanvasCall) : bool :=
  match c with DrawLine.stroke => true | _ => false end.

(** How many segments a list of canvas calls strokes. *)
Definition strokes (calls : list DrawLine.CanvasCall) : nat :=
  length (filter (λ c, isStroke c = true) calls).

(** The factor [_onMousewheel] applies to the deltas of a wheel event, by its
    delta mode, and whether the event makes it zoom and scroll. *)
Definition wheelFactor (event : WheelEvent) : Q :=
  if deltaMode event =? DOM_DELTA_PAGE then 120%Q
  else if deltaMode event =? DOM_DELTA_LINE then 32%Q
  else 1%Q.

Definition wheelZooms (o : HandleOptions) (event : WheelEvent) : bool :=
  negb (Qeq_bool (deltaY event) 0) && handleScale_mouseWheel o.

Definition wheelScrolls (o : HandleOptions) (event : WheelEvent) : bool :=
  negb (Qeq_bool (deltaX event) 0) && handleScroll_mouseWheel o.

(** Whether a call paints a pane widget or the time axis. *)
Definition isPaint (e : Effect) : bool :=
  match e with
  | PaneWidgetPaint _ _ | TimeAxisWidgetPaint _ => true
  | _ => false
  end.

(** From [W] to [W'] the trace has grown, and by no paint. *)
Definition quiet (W W' : World) : Prop :=
  ∃ calls, trace W' = trace W ++ calls ∧ Forall (λ e, isPaint e = false) calls.

(** The separators [_syncGuiWithModel] creates for [n] panes on a chart
    without pane widgets: one above each pane from the third on. *)
Definition separatorsFor (n : nat) : list PaneSeparator :=
  map (λ i, mkPaneSeparator (i - 1) i) (seq 2 (n - 2)).

Arguments separatorsFor : simpl never.

(** The dimensions the constructor passes to [resize]. *)
Definition initialWidth (containerWidth : Z) (options : ChartOptions) : Z :=
  Z.max 70 (if (options_width options =? 0) && (options_height options =? 0)
            then containerWidth else options_width options).

Definition initialHeight (containerHeight : Z) (options : ChartOptions) : Z :=
  Z.max 50 (if (options_width options =? 0) && (options_height options =? 0)
            then containerHeight else options_height options).

(** The pane widgets, the separators and the model of a chart. *)
Definition gui (W : World) :=
  (_paneWidgets (chart W), _paneSeparators (chart W), _model (chart W)).

(** The separators are those of the pane widgets there are. *)
Definition separated (W : World) : Prop :=
  _paneSeparators (chart W) = separatorsFor (length (_paneWidgets (chart W))).

(** The pane widgets and the separators agree with the panes of the model:
    one pane widget per pane, each showing its pane and laid out at least 2
    high, and one separator above each pane from the third on. *)
Definition synced (W : World) : Prop :=
  length (_paneWidgets (chart W)) = length (panes (_model (chart W))) ∧
  _paneSeparators (chart W) = separatorsFor (length (panes (_model (chart W)))) ∧
  ∀ i paneWidget,
    _paneWidgets (chart W) !! i = Some paneWidget →
    pw_state paneWidget = panes (_model (chart W)) !! i ∧
    is_Some (pw_size paneWidget) ∧ 2 ≤ paneHeight paneWidget.

(** What a call adds to the number of pane widgets, and of separators, that
    exist: one for a creation, minus one for a destruction. *)
Definition widgetDelta (e : Effect) : Z :=
  match e with
  | PaneWidgetCreate _ _ => 1
  | PaneWidgetDestroy _ => -1
  | _ => 0
  end.

Definition separatorDelta (e : Effect) : Z :=
  match e with
  | SeparatorCreate _ => 1
  | SeparatorDestroy _ => -1
  | _ => 0
  end.

Definition net (delta : Effect → Z) (calls : list Effect) : Z :=
  foldr (λ e acc, delta e + acc) 0 calls.

Arguments net : simpl never.

(** The pane widgets and the separators the chart holds are those that were
    created and not destroyed. *)
Definition balanced (W : World) : Prop :=
  net widgetDelta (trace W) = Z.of_nat (length (_paneWidgets (chart W))) ∧
  net separatorDelta (trace W) = Z.of_nat (length (_paneSeparators (chart W))).

(** How many times a list of calls paints the time axis. *)
Definition isTimeAxisPaint (e : Effect) : bool :=
  match e with TimeAxisWidgetPaint _ => true | _ => false end.

Definition timeAxisPaints (calls : list Effect) : nat :=
  length (filter (λ e, isTimeAxisPaint e = true) calls).

(** ** Sample inputs *)

(** A small chart to run the controller on: three panes of stretch factor
    1000 in a 400 by 300 container, price axes 50 wide, a time axis 28 high
    and separators 1 high. *)
Definition demoCollaborators : Collaborators :=
  {| SEPARATOR_HEIGHT := 1;
     stretchFactor := λ pw, match pw_state pw with Some _ => 1000%Q | None => 0%Q end;
     optimalWidth := λ _, 50;
     optimalHeight := 28 |}.

Definition demoOptions : ChartOptions :=
  {| options_width := 400; options_height := 300;
     priceScale_position := PositionRight; timeScale_visible := true |}.

Definition demoWorld : World :=
  construct (H := demoCollaborators) 0 0 demoOptions [0%nat; 1%nat; 2%nat] initialWindow.

(** A Light mask that carries the fit-content request. *)
Definition lightFitContentMask : InvalidateMask :=
  {| severity := InvalidationLevel.Light; paneFlags := ∅; fitContent := true |}.

(** A Light mask with an autoscale request for pane 1, and a Full mask with
    the fit-content request. *)
Definition lightAutoscaleMask : InvalidateMask :=
  {| severity := InvalidationLevel.Light;
     paneFlags := {[ 1%nat := mkPaneInvalidation InvalidationLevel.Light true ]};
     fitContent := false |}.

Definition fullFitContentMask : InvalidateMask :=
  {| severity := InvalidationLevel.Full; paneFlags := ∅; fitContent := true |}.

(** A mask of Full severity with the fit-content request and an autoscale
    request for pane 1. *)
Definition fullFitAutoscaleMask : InvalidateMask :=
  {| severity := InvalidationLevel.Full;
     paneFlags := {[ 1%nat := mkPaneInvalidation InvalidationLevel.Light true ]};
     fitContent := true |}.

(** A line series view to run the pane view on: items are (time, price,
    y-coordinate) triples, raw points are one item per stored bar, and the
    conversion writes twice the price less the first value as coordinate. *)
Definition demoSubclass : SeriesPaneViewBase.Subclass (Z * Z * Z) (Z * Z) (nat * nat) Z :=
  {| SeriesPaneViewBase._fillRawPoints :=
       λ series _, map (λ i, (Z.of_nat i, 10 + Z.of_nat i, 0))
                     (seq 0 (SeriesPaneViewBase.bars_size series));
     SeriesPaneViewBase._convertToCoordinates :=
       λ _ _ first _ items, map (λ '(t, p, _), (t, p, 2 * (p - first))) items;
     SeriesPaneViewBase.visibleTimedValues :=
       λ items bars, (Z.to_nat (fst bars), Z.to_nat (snd bars)) |}.

Definition demoSeries (n : nat) : SeriesPaneViewBase.Series Z :=
  SeriesPaneViewBase.mkSeries (SeriesPaneViewBase.mkPriceScale (n =? 0)%nat) n
    (if (n =? 0)%nat then None else Some 10).

Definition demoModel (n : nat) : SeriesPaneViewBase.Model (Z * Z) :=
  SeriesPaneViewBase.mkModel
    (SeriesPaneViewBase.mkTimeScale (n =? 0)%nat
       (if (n =? 0)%nat then None else Some (0, Z.of_nat n))).

(** A series of three bars on scales that are not empty, without a first
    value. *)
Definition demoSeriesNoFirstValue : SeriesPaneViewBase.Series Z :=
  SeriesPaneViewBase.mkSeries (SeriesPaneViewBase.mkPriceScale false) 3 None.

(** A quantizer to run the text colour on: two colours are known, and a
    colour is white when its weighted grey level reaches the threshold. *)
Definition demoParseRgb (color : string) : option (Z * Z * Z) :=
  if decide (color = "#000"%string) then Some (0, 0, 0)
  else if decide (color = "#FFF"%string) then Some (255, 255, 255)
  else None.

Definition demoRgbToBlackWhiteString (rgb : Z * Z * Z) (threshold : Z) : option string :=
  let '(r, g, b) := rgb in
  if (threshold <? 0) || (255 <? threshold) then None
  else if 1000 * threshold <=? 199 * r + 687 * g + 114 * b
       then Some "white"%string
       else Some "black"%string.

(** * Properties *)

(** ** The mask is a join-semilattice *)

Lemma level_max_assoc a b c :
  InvalidationLevel.max (InvalidationLevel.max a b) c
  = InvalidationLevel.max a (InvalidationLevel.max b c).
Proof. by destruct a, b, c. Qed.

Lemma level_max_idemp a : InvalidationLevel.max a a = a.
Proof. by destruct a. Qed.

Lemma level_max_comm a b : InvalidationLevel.max a b = InvalidationLevel.max b a.
Proof. by destruct a, b. Qed.

Lemma level_max_rank a b :
  InvalidationLevel.rank (InvalidationLevel.max a b)
  = Z.max (InvalidationLevel.rank a) (InvalidationLevel.rank b).
Proof. by destruct a, b. Qed.

Lemma mergePane_assoc p q r :
  Mask.mergePane (Mask.mergePane p q) r = Mask.mergePane p (Mask.mergePane q r).
Proof.
  unfold Mask.mergePane; cbn. by rewrite level_max_assoc, orb_assoc.
Qed.

Lemma mergePane_idemp p : Mask.mergePane p p = p.
Proof.
  destruct p as [l a]; unfold Mask.mergePane; cbn.
  by rewrite level_max_idemp, orb_diag.
Qed.

Lemma merge_lookup a b i :
  paneFlags (Mask.merge a b) !! i
  = union_with (λ p q, Some (Mask.mergePane p q)) (paneFlags a !! i) (paneFlags b !! i).
Proof. unfold Mask.merge; cbn. apply lookup_union_with. Qed.

Lemma mask_eq a b :
  severity a = severity b → paneFlags a = paneFlags b → fitContent a = fitContent b →
  a = b.
Proof. destruct a, b; cbn; congruence. Qed.

Lemma merge_assoc a b c :
  Mask.merge (Mask.merge a b) c = Mask.merge a (Mask.merge b c).
Proof.
  apply mask_eq.
  - cbn. apply level_max_assoc.
  - apply map_eq; intros i. rewrite !merge_lookup.
    destruct (paneFlags a !! i), (paneFlags b !! i), (paneFlags c !! i); cbn;
      by rewrite ?mergePane_assoc.
  - cbn. by rewrite orb_assoc.
Qed.

Lemma merge_comm a b : Mask.merge a b = Mask.merge b a.
Proof.
  apply mask_eq.
  - cbn. apply level_max_comm.
  - apply map_eq; intros i. rewrite !merge_lookup.
    destruct (paneFlags a !! i) as [p|], (paneFlags b !! i) as [q|]; cbn; [|done..].
    unfold Mask.mergePane. by rewrite level_max_comm, orb_comm.
  - cbn. apply orb_comm.
Qed.

Lemma merge_idemp a : Mask.merge a a = a.
Proof.
  apply mask_eq.
  - cbn. apply level_max_idemp.
  - apply map_eq; intros i. rewrite merge_lookup.
    destruct (paneFlags a !! i); cbn; by rewrite ?mergePane_idemp.
  - cbn. apply orb_diag.
Qed.

Lemma elem_of_autoscalePanes m i :
  i ∈ Mask.autoscalePanes m ↔ ∃ p, paneFlags m !! i = Some p ∧ autoScale p = true.
Proof.
  unfold Mask.autoscalePanes. rewrite elem_of_dom. unfold is_Some.
  setoid_rewrite map_lookup_filter_Some. cbn.
  split; intros (p & Hp & Ha); eauto.
Qed.

Lemma autoscalePanes_merge a b :
  Mask.autoscalePanes (Mask.merge a b) = Mask.autoscalePanes a ∪ Mask.autoscalePanes b.
Proof.
  apply set_eq; intros i.
  rewrite elem_of_union, !elem_of_autoscalePanes, merge_lookup.
  destruct (paneFlags a !! i) as [p|], (paneFlags b !! i) as [q|]; cbn.
  - split.
    + intros (r & [= <-] & Hr). cbn in Hr. apply orb_true_iff in Hr as [Hp | Hq]; eauto.
    + intros [(r & [= <-] & Hr) | (r & [= <-] & Hr)]; eexists; split; try done; cbn;
        rewrite Hr; by rewrite ?orb_true_r.
  - split; [eauto | by intros [? | (? & ? & ?)]].
  - split; [eauto | by intros [(? & ? & ?) | ?]].
  - split; [by intros (? & ? & ?) | by intros [(? & ? & ?) | (? & ? & ?)]].
Qed.

Lemma dom_paneFlags_merge a b :
  dom (paneFlags (Mask.merge a b)) = dom (paneFlags a) ∪ dom (paneFlags b).
Proof.
  apply set_eq; intros i.
  rewrite elem_of_union, !elem_of_dom, merge_lookup. unfold is_Some.
  destruct (paneFlags a !! i), (paneFlags b !! i); cbn;
    (split; [intros [? ?]; eauto | intros [[? ?] | [? ?]]; by eauto]).
Qed.

Lemma foldl_merge_app m l1 m' l2 :
  foldl Mask.merge m (l1 ++ m' :: l2)
  = Mask.merge (foldl Mask.merge m l1) (foldl Mask.merge m' l2).
Proof.
  rewrite foldl_app; cbn. generalize (foldl Mask.merge m l1); intros acc.
  revert acc m'. induction l2 as [|x l2 IH]; intros acc m'; cbn; [done|].
  rewrite IH, IH. by rewrite merge_assoc.
Qed.

(** ** What drawing leaves alone *)

Lemma control_emit e W : control (emit e W) = control W.
Proof. done. Qed.

Lemma control_set_paneWidgets f W :
  control (with_chart (λ c, set_paneWidgets (f c) c) W) = control W.
Proof. done. Qed.

Lemma control_set_paneSeparators f W :
  control (with_chart (λ c, set_paneSeparators (f c) c) W) = control W.
Proof. done. Qed.

Lemma control_foldl {A} (f : World → A → World) l W :
  (∀ W a, control (f W a) = control W) → control (foldl f W l) = control W.
Proof.
  intros Hf. revert W. induction l as [|a l IH]; intros W; cbn; [done|].
  by rewrite IH, Hf.
Qed.

Lemma chart_foldl_emit {A} (f : A → Effect) l W :
  chart (foldl (λ W a, emit (f a) W) W l) = chart W.
Proof. revert W. induction l as [|a l IH]; intros W; cbn; [done|]. by rewrite IH. Qed.

Lemma trace_foldl_emit {A} (f : A → Effect) l W :
  trace (foldl (λ W a, emit (f a) W) W l) = trace W ++ map f l.
Proof.
  revert W. induction l as [|a l IH]; intros W; cbn; [by rewrite app_nil_r|].
  rewrite IH. cbn. by rewrite <- app_assoc.
Qed.

Lemma control_iter (f : World → World) n W :
  (∀ W, control (f W) = control W) → control (Nat.iter n f W) = control W.
Proof.
  intros Hf. induction n as [|n IH]; [done|]. by rewrite Nat.iter_succ, Hf, IH.
Qed.

Section ControlPreserved.

Context `{Collaborators}.

Lemma control_adjustSizeImpl W : control (_adjustSizeImpl W) = control W.
Proof. unfold _adjustSizeImpl. by case_decide. Qed.

Lemma control_removeStep W : control (removeStep W) = control W.
Proof.
  unfold removeStep. destruct (last _); [|done]. cbn.
  by destruct (last _).
Qed.

Lemma control_createStep i W : control (createStep i W) = control W.
Proof.
  unfold createStep. destruct (_ !! i); [|done]. by destruct (1 <? i)%nat.
Qed.

Lemma control_syncStep W i : control (syncStep W i) = control W.
Proof.
  unfold syncStep. destruct (_ !! i); [|done]. by case_decide.
Qed.

Lemma control_syncGuiWithModel W : control (_syncGuiWithModel W) = control W.
Proof.
  unfold _syncGuiWithModel, _updateTimeAxisVisibility.
  rewrite control_adjustSizeImpl, control_emit.
  rewrite control_foldl by apply control_syncStep.
  rewrite control_foldl by (intros; apply control_createStep).
  apply control_iter, control_removeStep.
Qed.

Lemma control_paint m W : control (paint m W) = control W.
Proof.
  unfold paint. rewrite control_emit. by apply control_foldl.
Qed.

Lemma control_setStateStep W i : control (setStateStep W i) = control W.
Proof. unfold setStateStep. by destruct (_ !! i). Qed.

Lemma control_autoScaleStep m W i : control (autoScaleStep m W i) = control W.
Proof. unfold autoScaleStep. by destruct (autoScale _). Qed.

Lemma control_drawImpl m W : control (_drawImpl m W) = control W.
Proof.
  unfold _drawImpl. rewrite control_paint.
  destruct (Mask.fullInvalidation m); [done| |].
  - rewrite control_emit. by destruct (Mask.getFitContent m).
  - rewrite control_foldl by apply control_setStateStep.
    rewrite control_emit.
    rewrite control_foldl by apply control_autoScaleStep.
    unfold _updateGui.
    destruct (Mask.getFitContent m); by rewrite ?control_emit, control_syncGuiWithModel.
Qed.

End ControlPreserved.

(** ** The scheduling invariant *)

Lemma control_fields W W' :
  control W = control W' →
  window W = window W' ∧ _drawPlanned (chart W) = _drawPlanned (chart W') ∧
  _drawRafId (chart W) = _drawRafId (chart W') ∧
  _invalidateMask (chart W) = _invalidateMask (chart W') ∧
  _element (chart W) = _element (chart W') ∧
  _height (chart W) = _height (chart W') ∧ _width (chart W) = _width (chart W').
Proof. unfold control. intros [= -> -> -> -> -> -> -> _ _]. done. Qed.

Lemma scheduled_ok_control W W' :
  control W = control W' → scheduled_ok W → scheduled_ok W'.
Proof.
  intros HC [H1 H2 H3 H4].
  apply control_fields in HC as (Hw & Hp & Hr & Hm & _).
  split; rewrite <- ?Hw, <- ?Hp, <- ?Hr, <- ?Hm; done.
Qed.

Section Scheduling.

Context `{Collaborators}.

Lemma drawCallback_fields W :
  window (drawCallback W) = window W ∧
  _drawPlanned (chart (drawCallback W)) = false ∧
  _drawRafId (chart (drawCallback W)) = 0 ∧
  _invalidateMask (chart (drawCallback W)) = None.
Proof.
  unfold drawCallback. cbn.
  destruct (_invalidateMask (chart W)) as [m|] eqn:Hm; cbn; [|done].
  match goal with |- context [_drawImpl m ?W1] =>
    pose proof (control_fields _ _ (control_drawImpl m W1)) as (Hw & Hp & Hr & _) end.
  by rewrite Hw, Hp, Hr.
Qed.

Lemma invalidateHandler_idle m W :
  _drawPlanned (chart W) = false →
  _invalidateHandler m W =
    {| chart := set_drawRafId (raf_next (window W))
                  (set_drawPlanned true
                     (set_invalidateMask
                        (Some (match _invalidateMask (chart W) with
                               | Some pending => Mask.merge pending m
                               | None => m
                               end)) (chart W)));
       window := snd (requestAnimationFrame (window W));
       trace := trace W |}.
Proof.
  intros Hp. unfold _invalidateHandler.
  destruct (_invalidateMask (chart W)); cbn; by rewrite Hp.
Qed.

Lemma invalidateHandler_planned m W :
  _drawPlanned (chart W) = true →
  _invalidateHandler m W =
    with_chart
      (set_invalidateMask
         (Some (match _invalidateMask (chart W) with
                | Some pending => Mask.merge pending m
                | None => m
                end))) W.
Proof.
  intros Hp. unfold _invalidateHandler.
  destruct (_invalidateMask (chart W)); cbn; by rewrite Hp.
Qed.

Lemma scheduled_ok_invalidateHandler m W :
  scheduled_ok W → scheduled_ok (_invalidateHandler m W).
Proof.
  intros [H1 H2 H3 H4].
  destruct (_drawPlanned (chart W)) eqn:Hp.
  - rewrite invalidateHandler_planned by done.
    split; cbn; rewrite ?Hp; done.
  - rewrite invalidateHandler_idle by done.
    destruct (H3 eq_refl) as (Hr & Hq & Hm).
    split; cbn; rewrite ?Hq; cbn; [lia | right; repeat split; lia | done | eauto].
Qed.

Lemma scheduled_ok_runFrame W : scheduled_ok W → scheduled_ok (runFrame W).
Proof.
  intros [H1 H2 H3 H4]. unfold runFrame.
  destruct H2 as [Hq | (Hp & Hq & Hr)]; rewrite Hq; cbn.
  - split; cbn; [done | by left | | done].
    intros Hp. destruct (H3 Hp) as (? & ? & ?). done.
  - match goal with |- scheduled_ok (drawCallback ?W1) =>
      destruct (drawCallback_fields W1) as (Hw & Hp' & Hr' & Hm') end.
    split; rewrite ?Hw, ?Hp', ?Hr', ?Hm'; cbn; [done | by left | done | done].
Qed.

Lemma scheduled_ok_drawImpl m W : scheduled_ok W → scheduled_ok (_drawImpl m W).
Proof. apply scheduled_ok_control. symmetry. apply control_drawImpl. Qed.

Lemma scheduled_ok_resize height width forceRepaint W :
  scheduled_ok W → scheduled_ok (worldOf (resize height width forceRepaint W)).
Proof.
  intros HW. unfold resize.
  destruct (_ && _); [done|]. cbn.
  assert (scheduled_ok (with_chart (set_size height width) W)) as HW1
    by (destruct HW; by split).
  destruct (_element (chart W)); [|done].
  destruct forceRepaint; cbn.
  - apply scheduled_ok_drawImpl. destruct HW1; by split.
  - apply scheduled_ok_invalidateHandler. destruct HW1; by split.
Qed.

Lemma scheduled_ok_adjustSize W : scheduled_ok W → scheduled_ok (adjustSize W).
Proof.
  intros HW. apply scheduled_ok_invalidateHandler.
  revert HW. apply scheduled_ok_control. symmetry. apply control_adjustSizeImpl.
Qed.

Lemma destroy_fields W :
  _element (chart W) = true →
  window (worldOf (destroy W)) =
    (if decide (_drawRafId (chart W) ≠ 0)
     then cancelAnimationFrame (_drawRafId (chart W)) (window W)
     else window W) ∧
  _drawPlanned (chart (worldOf (destroy W))) = _drawPlanned (chart W) ∧
  _drawRafId (chart (worldOf (destroy W))) = _drawRafId (chart W) ∧
  _invalidateMask (chart (worldOf (destroy W))) = _invalidateMask (chart W) ∧
  _paneWidgets (chart (worldOf (destroy W))) = [] ∧
  _paneSeparators (chart (worldOf (destroy W))) = [] ∧
  _element (chart (worldOf (destroy W))) = false.
Proof.
  intros He. unfold destroy. rewrite He. cbn.
  set (W1 := if decide (_drawRafId (chart W) ≠ 0) then _ else _).
  assert (window W1 =
            (if decide (_drawRafId (chart W) ≠ 0)
             then cancelAnimationFrame (_drawRafId (chart W)) (window W)
             else window W) ∧
          _drawPlanned (chart W1) = _drawPlanned (chart W) ∧
          _drawRafId (chart W1) = _drawRafId (chart W) ∧
          _invalidateMask (chart W1) = _invalidateMask (chart W)) as (Hw & Hp & Hr & Hm)
    by (subst W1; by case_decide).
  set (W2 := foldl _ (emit ModelDestroy (emit UnsubscribeModelEvents W1)) _).
  assert (control W2 = control W1) as HC2
    by (subst W2; by rewrite control_foldl).
  set (W3 := foldl _ (with_chart (set_paneWidgets []) W2) _).
  assert (control W3 = control W2) as HC3
    by (subst W3; by rewrite control_foldl).
  apply control_fields in HC2 as (Hw2 & Hp2 & Hr2 & Hm2 & _).
  apply control_fields in HC3 as (Hw3 & Hp3 & Hr3 & Hm3 & _).
  rewrite Hw3, Hw2, Hp3, Hp2, Hr3, Hr2, Hm3, Hm2.
  repeat split; try done. subst W3. by rewrite chart_foldl_emit.
Qed.

Lemma scheduled_ok_destroy W : scheduled_ok W → scheduled_ok (worldOf (destroy W)).
Proof.
  intros HW. destruct (_element (chart W)) eqn:He.
  - destruct (destroy_fields W He) as (Hw & Hp & Hr & Hm & _).
    destruct HW as [H1 H2 H3 H4].
    split; rewrite ?Hw, ?Hp, ?Hr, ?Hm; try done.
    + by case_decide.
    + case_decide as Hid; [|done].
      destruct H2 as [Hq | (Hp' & Hq & Hlt)]; cbn; rewrite Hq; [by left|].
      left. cbn. by rewrite decide_False by (intros Hne; by apply Hne).
    + intros Hpl. destruct (H3 Hpl) as (Hr0 & Hq & Hm0).
      by rewrite decide_False by (intros Hne; by apply Hne).
  - unfold destroy. by rewrite He.
Qed.

Lemma scheduled_ok_construct containerWidth containerHeight options modelPanes win :
  0 < raf_next win → raf_pending win = [] →
  scheduled_ok (construct containerWidth containerHeight options modelPanes win).
Proof.
  intros Hn Hq. unfold construct, _updateTimeAxisVisibility.
  eapply scheduled_ok_control; [symmetry; apply control_emit|].
  eapply scheduled_ok_control; [symmetry; apply control_syncGuiWithModel|].
  apply scheduled_ok_resize. split; cbn; [done | by left | done | done].
Qed.

Lemma scheduled_ok_step W e : scheduled_ok W → scheduled_ok (step W e).
Proof.
  destruct e; cbn.
  - apply scheduled_ok_invalidateHandler.
  - apply scheduled_ok_runFrame.
  - apply scheduled_ok_resize.
  - apply scheduled_ok_adjustSize.
  - apply scheduled_ok_destroy.
Qed.

Lemma reachable_scheduled_ok W : reachable W → scheduled_ok W.
Proof.
  induction 1 as [cw ch o ps win Hn Hq | W e _ IH].
  - by apply scheduled_ok_construct.
  - by apply scheduled_ok_step.
Qed.

End Scheduling.

(** ** Accumulating masks in the controller *)

Section Accumulation.

Context `{Collaborators}.

Lemma invalidateHandler_mask m W :
  _invalidateMask (chart (_invalidateHandler m W))
  = Some (match _invalidateMask (chart W) with
          | Some pending => Mask.merge pending m
          | None => m
          end).
Proof.
  destruct (_drawPlanned (chart W)) eqn:Hp.
  - by rewrite invalidateHandler_planned.
  - by rewrite invalidateHandler_idle.
Qed.

Lemma raise_mask ms W :
  _invalidateMask (chart (raise ms W))
  = match _invalidateMask (chart W), ms with
    | Some pending, _ => Some (foldl Mask.merge pending ms)
    | None, [] => None
    | None, m :: ms' => Some (foldl Mask.merge m ms')
    end.
Proof.
  revert W. induction ms as [|m ms IH]; intros W.
  - cbn. by destruct (_invalidateMask (chart W)).
  - unfold raise in *. cbn [foldl]. rewrite IH, invalidateHandler_mask.
    by destruct (_invalidateMask (chart W)).
Qed.

End Accumulation.

(** C1. Merging two masks gives the maximum of the two severities, the union
    of the two per-pane flag sets (and of the panes that carry a flag) and the
    disjunction of the fit-content flags; merge is associative and idempotent;
    the masks raised after a paint callback accumulate in the controller to
    the fold of merge over them, and that fold can be regrouped at will. *)
Theorem merge_semilattice_and_accumulation `{Collaborators} :
  (∀ a b,
     severity (Mask.merge a b) = InvalidationLevel.max (severity a) (severity b) ∧
     InvalidationLevel.rank (severity (Mask.merge a b))
       = Z.max (InvalidationLevel.rank (severity a)) (InvalidationLevel.rank (severity b)) ∧
     Mask.autoscalePanes (Mask.merge a b) = Mask.autoscalePanes a ∪ Mask.autoscalePanes b ∧
     dom (paneFlags (Mask.merge a b)) = dom (paneFlags a) ∪ dom (paneFlags b) ∧
     fitContent (Mask.merge a b) = fitContent a || fitContent b) ∧
  (∀ a b c, Mask.merge (Mask.merge a b) c = Mask.merge a (Mask.merge b c)) ∧
  (∀ a, Mask.merge a a = a) ∧
  (∀ W m ms,
     _invalidateMask (chart (raise (m :: ms) (drawCallback W)))
     = Some (foldl Mask.merge m ms)) ∧
  (∀ m l1 m' l2,
     foldl Mask.merge m (l1 ++ m' :: l2)
     = Mask.merge (foldl Mask.merge m l1) (foldl Mask.merge m' l2)).
Proof.
  repeat split.
  - apply level_max_rank.
  - apply autoscalePanes_merge.
  - apply dom_paneFlags_merge.
  - intros a b c. apply merge_assoc.
  - intros a. apply merge_idemp.
  - intros W m ms. rewrite raise_mask.
    by destruct (drawCallback_fields W) as (_ & _ & _ & ->).
  - intros m l1 m' l2. apply foldl_merge_app.
Qed.

(** Two invalidations raised one after the other, a Light one with an
    autoscale request for pane 1 and a Full one with the fit-content request:
    the pending mask is their merge, of Full severity, with the autoscale
    request of pane 1 and the fit-content request. *)
Lemma merge_semilattice_and_accumulation_witness :
  _invalidateMask
    (chart (raise [lightAutoscaleMask; fullFitContentMask]
              (drawCallback (H := demoCollaborators) demoWorld)))
  = Some (Mask.merge lightAutoscaleMask fullFitContentMask) ∧
  severity (Mask.merge lightAutoscaleMask fullFitContentMask) = InvalidationLevel.Full ∧
  Mask.autoscalePanes (Mask.merge lightAutoscaleMask fullFitContentMask)
  = Mask.autoscalePanes lightAutoscaleMask ∪ Mask.autoscalePanes fullFitContentMask ∧
  fitContent (Mask.merge lightAutoscaleMask fullFitContentMask) = true.
Proof.
  destruct (merge_semilattice_and_accumulation (H := demoCollaborators))
    as (Hmerge & _ & _ & Hraise & _).
  destruct (Hmerge lightAutoscaleMask fullFitContentMask) as (Hs & _ & Ha & _ & Hf).
  split; [exact (Hraise demoWorld lightAutoscaleMask [fullFitContentMask])|].
  split; [exact Hs|]. split; [exact Ha|]. exact Hf.
Defined.

(** ** The controller as a two-state machine *)

Section TwoStates.

Context `{Collaborators}.

Lemma drawCallback_Some m W :
  _invalidateMask (chart W) = Some m →
  drawCallback W
  = with_chart (set_invalidateMask None)
      (_drawImpl m (with_chart (set_drawRafId 0) (with_chart (set_drawPlanned false) W))).
Proof. intros Hm. unfold drawCallback. cbn. by rewrite Hm. Qed.

Lemma runFrame_one m W :
  raf_pending (window W) = [_drawRafId (chart W)] →
  _invalidateMask (chart W) = Some m →
  runFrame W = with_chart (set_invalidateMask None) (_drawImpl m (callbackStart W)).
Proof.
  intros Hq Hm. unfold runFrame. rewrite Hq. cbn [foldl].
  by rewrite (drawCallback_Some m).
Qed.

End TwoStates.

(** C2. In every reachable world at most one paint callback is outstanding.
    An invalidation that reaches an idle controller stores its mask,
    schedules exactly one callback and enters PaintScheduled; an invalidation
    that reaches a controller with a paint scheduled only merges into the
    pending mask; when the outstanding callback runs, it draws with the
    pending mask, clears it and the controller is idle with nothing
    outstanding. *)
Theorem controller_two_state_machine `{Collaborators} (W : World) :
  reachable W →
  (length (raf_pending (window W)) ≤ 1)%nat ∧
  (∀ m, controllerState W = Idle →
     raf_pending (window W) = [] ∧
     controllerState (_invalidateHandler m W) = PaintScheduled ∧
     raf_pending (window (_invalidateHandler m W))
       = [_drawRafId (chart (_invalidateHandler m W))] ∧
     _invalidateMask (chart (_invalidateHandler m W)) = Some m ∧
     trace (_invalidateHandler m W) = trace W) ∧
  (∀ m, controllerState W = PaintScheduled →
     ∃ pending,
       _invalidateMask (chart W) = Some pending ∧
       _invalidateHandler m W
         = with_chart (set_invalidateMask (Some (Mask.merge pending m))) W ∧
       window (_invalidateHandler m W) = window W ∧
       controllerState (_invalidateHandler m W) = PaintScheduled) ∧
  (raf_pending (window W) ≠ [] →
     ∃ pending,
       controllerState W = PaintScheduled ∧
       _invalidateMask (chart W) = Some pending ∧
       runFrame W
         = with_chart (set_invalidateMask None) (_drawImpl pending (callbackStart W)) ∧
       controllerState (runFrame W) = Idle ∧
       _invalidateMask (chart (runFrame W)) = None ∧
       raf_pending (window (runFrame W)) = []).
Proof.
  intros HW. apply reachable_scheduled_ok in HW as [H1 H2 H3 H4].
  unfold controllerState. repeat split.
  - destruct H2 as [-> | (_ & -> & _)]; cbn; lia.
  - destruct (_drawPlanned (chart W)); [done|]. by destruct (H3 eq_refl) as (_ & ? & _).
  - destruct (_drawPlanned (chart W)) eqn:Hp; [done|].
    by rewrite invalidateHandler_idle.
  - destruct (_drawPlanned (chart W)) eqn:Hp; [done|].
    destruct (H3 eq_refl) as (_ & Hq & _).
    rewrite invalidateHandler_idle by done. cbn. by rewrite Hq.
  - destruct (_drawPlanned (chart W)) eqn:Hp; [done|].
    destruct (H3 eq_refl) as (_ & _ & Hm).
    by rewrite invalidateHandler_mask, Hm.
  - destruct (_drawPlanned (chart W)) eqn:Hp; [done|].
    by rewrite invalidateHandler_idle.
  - intros m Hs. destruct (_drawPlanned (chart W)) eqn:Hp; [|done].
    destruct (H4 eq_refl) as [pending Hm]. exists pending.
    rewrite invalidateHandler_planned by done. rewrite Hm. cbn. by rewrite Hp.
  - intros Hne. destruct H2 as [Hq | (Hp & Hq & Hlt)]; [done|].
    destruct (H4 Hp) as [pending Hm]. exists pending.
    rewrite Hp. split; [done|]. split; [done|].
    rewrite (runFrame_one pending) by done. split; [done|].
    pose proof (control_fields _ _ (control_drawImpl pending (callbackStart W)))
      as (Hw & Hp' & _).
    cbn. by rewrite Hw, Hp'.
Qed.

(** The theorem at the chart just constructed, where the constructor's
    [resize] has left a paint scheduled. *)
Lemma controller_two_state_machine_witness :
  reachable (H := demoCollaborators) demoWorld ∧
  (length (raf_pending (window demoWorld)) ≤ 1)%nat ∧
  raf_pending (window demoWorld) ≠ [] ∧
  controllerState demoWorld = PaintScheduled.
Proof.
  assert (reachable (H := demoCollaborators) demoWorld) as HR
    by (apply reachable_construct; [reflexivity | reflexivity]).
  assert (raf_pending (window demoWorld) ≠ []) as Hne by (vm_compute; discriminate).
  split; [exact HR|].
  split; [exact (proj1 (controller_two_state_machine (H := demoCollaborators) demoWorld HR))|].
  split; [exact Hne|].
  destruct (proj2 (proj2 (proj2
    (controller_two_state_machine (H := demoCollaborators) demoWorld HR))) Hne)
    as (pending & Hs & _).
  exact Hs.
Defined.

(** ** Destruction *)

Lemma fresh_from_window n W W' :
  window W = window W' → fresh_from n W → fresh_from n W'.
Proof. unfold fresh_from. by intros ->. Qed.

Section Destruction.

Context `{Collaborators}.

Lemma window_runFrame W :
  window (runFrame W) = {| raf_next := raf_next (window W); raf_pending := [] |}.
Proof.
  unfold runFrame.
  generalize (raf_pending (window W)); intros due.
  match goal with |- window (foldl _ ?W0 _) = _ =>
    change (window (foldl (λ W _, drawCallback W) W0 due) = window W0);
    generalize W0 end.
  induction due as [|x due IH]; intros W0; cbn; [done|].
  rewrite IH. by destruct (drawCallback_fields W0) as (-> & _).
Qed.

Lemma fresh_from_invalidateHandler n m W :
  fresh_from n W → fresh_from n (_invalidateHandler m W).
Proof.
  intros [Hn Hq]. destruct (_drawPlanned (chart W)) eqn:Hp.
  - by rewrite invalidateHandler_planned.
  - rewrite invalidateHandler_idle by done. split; cbn; [lia|].
    intros id [Hin | Hin%list_elem_of_singleton]%elem_of_app; [by apply Hq | lia].
Qed.

Lemma fresh_from_step n W e : fresh_from n W → fresh_from n (step W e).
Proof.
  intros HW. destruct e as [m | | height width forceRepaint | |]; cbn.
  - by apply fresh_from_invalidateHandler.
  - destruct HW as [Hn _]. split; rewrite window_runFrame; cbn; [done|].
    by intros id ?%elem_of_nil.
  - unfold resize. destruct (_ && _); [done|].
    cbn. destruct (_element (chart W)); [|done].
    destruct forceRepaint; cbn.
    + eapply fresh_from_window; [|exact HW].
      by destruct (control_fields _ _
        (control_drawImpl (Mask.new InvalidationLevel.Full)
           (emit (ElementStyleSize height width) (with_chart (set_size height width) W))))
        as (-> & _).
    + by apply fresh_from_invalidateHandler.
  - apply fresh_from_invalidateHandler.
    eapply fresh_from_window; [|exact HW].
    by destruct (control_fields _ _ (control_adjustSizeImpl W)) as (-> & _).
  - destruct (_element (chart W)) eqn:He.
    + destruct (destroy_fields W He) as (Hw & _).
      destruct HW as [Hn Hq]. unfold fresh_from. rewrite Hw.
      case_decide; [|done]. split; [done|].
      unfold cancelAnimationFrame. cbn.
      intros id [_ Hin]%list_elem_of_filter. by apply Hq.
    + unfold destroy. by rewrite He.
Qed.

Lemma fresh_from_steps n W es : fresh_from n W → fresh_from n (foldl step W es).
Proof.
  revert W. induction es as [|e es IH]; intros W HW; cbn; [done|].
  by apply IH, fresh_from_step.
Qed.

End Destruction.

(** C8. Destroying a chart widget that is not destroyed yet cancels the
    request whose nonzero handle the controller stores; no paint callback is
    outstanding afterwards, and no request that was pending before the
    destruction is pending (so none can fire) after any further events. *)
Theorem destroy_cancels_scheduled_paint `{Collaborators} (W : World) :
  reachable W →
  _element (chart W) = true →
  window (worldOf (destroy W))
    = (if decide (_drawRafId (chart W) ≠ 0)
       then cancelAnimationFrame (_drawRafId (chart W)) (window W)
       else window W) ∧
  (raf_pending (window W) ≠ [] →
     _drawRafId (chart W) ≠ 0 ∧ raf_pending (window W) = [_drawRafId (chart W)]) ∧
  raf_pending (window (worldOf (destroy W))) = [] ∧
  (∀ es id,
     id ∈ raf_pending (window W) →
     id ∉ raf_pending (window (foldl step (worldOf (destroy W)) es))).
Proof.
  intros HW He.
  apply reachable_scheduled_ok in HW.
  pose proof (scheduled_ok_destroy W HW) as HD.
  destruct (destroy_fields W He) as (Hw & Hp & Hr & _).
  assert (raf_pending (window (worldOf (destroy W))) = []) as Hempty.
  { rewrite Hw. destruct HW as [H1 H2 H3 H4].
    destruct H2 as [Hq | (Hpl & Hq & Hlt)].
    - case_decide; cbn; by rewrite Hq.
    - rewrite decide_True by lia. cbn. rewrite Hq. cbn.
      by rewrite decide_False by (intros Hne; by apply Hne). }
  split; [done|]. split; [|split; [done|]].
  - intros Hne. destruct HW as [H1 H2 H3 H4].
    destruct H2 as [Hq | (Hpl & Hq & Hlt)]; [done|]. split; [lia | done].
  - intros es id Hin Hin'.
    assert (fresh_from (raf_next (window W)) (worldOf (destroy W))) as HF.
    { split; [|rewrite Hempty; by intros ? ?%elem_of_nil].
      rewrite Hw. by case_decide. }
    apply (fresh_from_steps _ _ es) in HF as [_ HF].
    apply HF in Hin'.
    destruct HW as [H1 H2 H3 H4].
    destruct H2 as [Hq | (Hpl & Hq & Hlt)]; rewrite Hq in Hin.
    + by apply elem_of_nil in Hin.
    + apply list_elem_of_singleton in Hin. lia.
Qed.

(** The theorem at the chart just constructed: its scheduled paint is
    cancelled. *)
Lemma destroy_cancels_scheduled_paint_witness :
  raf_pending (window demoWorld) = [1] ∧
  raf_pending (window (worldOf (destroy demoWorld))) = [].
Proof.
  split; [vm_compute; reflexivity|].
  refine (proj1 (proj2 (proj2
    (destroy_cancels_scheduled_paint (H := demoCollaborators) demoWorld _ _)))).
  - apply reachable_construct; reflexivity.
  - vm_compute; reflexivity.
Defined.

(** ** The series pane view *)

Section PaneViewProperties.

Import SeriesPaneViewBase.

Context {ItemType BarsRange SeriesItemsIndexesRange PriceValue : Type}.
Context `{!Subclass ItemType BarsRange SeriesItemsIndexesRange PriceValue}.

Local Abbreviation View := (SeriesPaneViewBase.t ItemType SeriesItemsIndexesRange).
Local Abbreviation SeriesOf := (Series PriceValue).
Local Abbreviation ModelOf := (Model BarsRange).

(** Closes the three parts of the goal of C5 in a case where one of the
    emptiness conditions holds: only [UpdatePoints] was called. *)
Ltac nothing_shown :=
  rewrite drop_app_length;
  split; [done|]; split; [done|];
  split; [by intros ?%list_elem_of_singleton | by intros [? _]].

(** C5. When there is nothing to show, [_updatePoints] sets the visible
    items range to null, keeps the items and converts no coordinate; it
    converts coordinates (once, after computing the visible range of the
    items) exactly when all the emptiness conditions fail and the series has
    a first value, and throws without converting when they fail and the
    first value is null. *)
Theorem updatePoints_empty_sentinel (series : SeriesOf) (model : ModelOf) (v : View) :
  (nothingToShow series model = true →
     _updatePoints series model v
       = Returned (set_itemsVisibleRange None (called UpdatePoints v)) ∧
     _itemsVisibleRange (viewOf (_updatePoints series model v)) = None ∧
     _items (viewOf (_updatePoints series model v)) = _items v ∧
     calls (viewOf (_updatePoints series model v)) = calls v ++ [UpdatePoints]) ∧
  (nothingToShow series model = false →
     ∃ bars,
       visibleBars (timeScale model) = Some bars ∧
       _itemsVisibleRange (viewOf (_updatePoints series model v))
         = Some (visibleTimedValues (_items v) bars) ∧
       match firstValue series with
       | Some first =>
           _updatePoints series model v
             = Returned
                 (set_items
                    (_convertToCoordinates (priceScale series) (timeScale model) first
                       (Some (visibleTimedValues (_items v) bars)) (_items v))
                    (called ConvertToCoordinates
                       (set_itemsVisibleRange (Some (visibleTimedValues (_items v) bars))
                          (called UpdatePoints v)))) ∧
           calls (viewOf (_updatePoints series model v))
             = calls v ++ [UpdatePoints; ConvertToCoordinates]
       | None =>
           _updatePoints series model v
             = Threw (set_itemsVisibleRange (Some (visibleTimedValues (_items v) bars))
                        (called UpdatePoints v)) ∧
           calls (viewOf (_updatePoints series model v)) = calls v ++ [UpdatePoints]
       end) ∧
  (ConvertToCoordinates ∈ drop (length (calls v)) (calls (viewOf (_updatePoints series model v)))
   ↔ nothingToShow series model = false ∧ firstValue series ≠ None).
Proof.
  unfold nothingToShow, _updatePoints.
  destruct (timeScale_isEmpty (timeScale model)) eqn:Ht; cbn; [nothing_shown|].
  destruct (priceScale_isEmpty (priceScale series)) eqn:Hp; cbn; [nothing_shown|].
  destruct (visibleBars (timeScale model)) as [bars|] eqn:Hb; cbn; [|nothing_shown].
  destruct (bars_size series) as [|n] eqn:Hn; cbn; [nothing_shown|].
  split; [done|].
  destruct (firstValue series) as [first|] eqn:Hf; cbn.
  - split.
    + intros _. exists bars. by rewrite <- app_assoc.
    + rewrite <- app_assoc, drop_app_length. split; [done|].
      intros _. apply list_elem_of_In. cbn. tauto.
  - split.
    + intros _. by exists bars.
    + rewrite drop_app_length.
      split; [by intros ?%list_elem_of_singleton | by intros [_ ?]].
Qed.

Lemma updatePoints_calls (series : SeriesOf) (model : ModelOf) (v : View) :
  calls (viewOf (_updatePoints series model v))
  = calls v ++ UpdatePoints ::
      (if nothingToShow series model then []
       else if firstValue series is Some _ then [ConvertToCoordinates] else []).
Proof.
  unfold nothingToShow, _updatePoints.
  destruct (timeScale_isEmpty (timeScale model)); [done|].
  destruct (priceScale_isEmpty (priceScale series)); [done|].
  destruct (visibleBars (timeScale model)); [|done].
  destruct (bars_size series); [done|]. cbn.
  destruct (firstValue series); cbn; [by rewrite <- app_assoc | done].
Qed.

Lemma updatePoints_flags (series : SeriesOf) (model : ModelOf) (v : View) :
  _invalidated (viewOf (_updatePoints series model v)) = _invalidated v ∧
  _dataInvalidated (viewOf (_updatePoints series model v)) = _dataInvalidated v.
Proof.
  unfold _updatePoints.
  destruct (_ || _); [done|]. destruct (visibleBars _); [|done].
  destruct (_ =? _)%nat; [done|]. by destruct (firstValue series).
Qed.

Lemma updatePoints_returns (series : SeriesOf) (model : ModelOf) (v : View) :
  (∃ v', _updatePoints series model v = Returned v')
  ↔ nothingToShow series model = true ∨ firstValue series ≠ None.
Proof.
  unfold nothingToShow, _updatePoints.
  destruct (timeScale_isEmpty (timeScale model)); [split; eauto|].
  destruct (priceScale_isEmpty (priceScale series)); [split; eauto|].
  destruct (visibleBars (timeScale model)); [|split; eauto].
  destruct (bars_size series); [split; eauto|]. cbn.
  destruct (firstValue series).
  - split; [by right | eauto].
  - split; [by intros [? ?] | by intros [? | ?]].
Qed.


End PaneViewProperties.

(** An empty series: the visible range is the null sentinel and nothing is
    converted. *)
Lemma updatePoints_empty_sentinel_witness :
  SeriesPaneViewBase._itemsVisibleRange
    (SeriesPaneViewBase.viewOf (SeriesPaneViewBase._updatePoints (H := demoSubclass)
               (demoSeries 0) (demoModel 0) SeriesPaneViewBase.new)) = None ∧
  SeriesPaneViewBase.calls
    (SeriesPaneViewBase.viewOf (SeriesPaneViewBase._updatePoints (H := demoSubclass)
               (demoSeries 0) (demoModel 0) SeriesPaneViewBase.new))
  = [SeriesPaneViewBase.UpdatePoints].
Proof.
  destruct (proj1 (updatePoints_empty_sentinel (Subclass0 := demoSubclass)
                     (demoSeries 0) (demoModel 0) SeriesPaneViewBase.new) eq_refl)
    as (_ & Hr & _ & Hc).
  exact (conj Hr Hc).
Defined.


(** ** Drawing a line *)

Section DrawLineProperties.

Import PrimFloat DrawLine.

(** C7. When one of the four coordinates is not finite (a NaN or an
    infinity), [drawLine] returns the context as it is, with no call made on
    it; when all four are finite it makes exactly the calls that stroke the
    one segment from (x1, y1) to (x2, y2), with the dash pattern of the
    style, between a save and a restore. *)
Theorem drawLine_skips_non_finite (ctx : CanvasRenderingContext2D)
    (x1 y1 x2 y2 : float) (lineStyle : LineStyle) :
  (∀ x, isFinite x = false ↔ is_nan x = true ∨ is_infinity x = true) ∧
  (isFinite x1 = false ∨ isFinite y1 = false ∨ isFinite x2 = false ∨ isFinite y2 = false →
     drawLine ctx x1 y1 x2 y2 lineStyle = ctx) ∧
  (isFinite x1 = true ∧ isFinite y1 = true ∧ isFinite x2 = true ∧ isFinite y2 = true →
     lineWidth (drawLine ctx x1 y1 x2 y2 lineStyle) = lineWidth ctx ∧
     canvasCalls (drawLine ctx x1 y1 x2 y2 lineStyle)
       = canvasCalls ctx
         ++ [save; setLineDash (dashPatterns ctx lineStyle); beginPath;
             moveTo x1 y1; lineTo x2 y2; stroke; restore]).
Proof.
  split; [|split].
  - intros x. unfold isFinite, is_finite.
    destruct (is_nan x), (is_infinity x); cbn; intuition congruence.
  - unfold drawLine. intros Hnf.
    destruct (isFinite x1), (isFinite y1), (isFinite x2), (isFinite y2); cbn;
      try reflexivity.
    exfalso. intuition congruence.
  - unfold drawLine, setLineStyle, call. intros (-> & -> & -> & ->). cbn.
    split; [reflexivity|].
    by rewrite <- !app_assoc.
Qed.

(** A dotted line of width 2 to a NaN end point and to a finite one. *)
Lemma drawLine_skips_non_finite_witness :
  drawLine (mkCtx 2 []) 0 0 nan 5 Dotted = mkCtx 2 [] ∧
  canvasCalls (drawLine (mkCtx 2 []) 0 0 10 5 Dotted)
  = [save; setLineDash [2; 4]; beginPath; moveTo 0 0; lineTo 10 5; stroke; restore]%float.
Proof.
  split.
  - apply (proj1 (proj2 (drawLine_skips_non_finite (mkCtx 2 []) 0 0 nan 5 Dotted))).
    right. right. left. reflexivity.
  - refine (proj2 (proj2 (proj2 (drawLine_skips_non_finite (mkCtx 2 []) 0 0 10 5 Dotted)) _)).
    repeat split; reflexivity.
Defined.

End DrawLineProperties.

(** ** The text colour of a price axis label *)

Section TextColor.

Import PriceAxisView.

Context {Rgb : Type}.
Variable parseRgb : string → option Rgb.
Variable rgbToBlackWhiteString : Rgb → Z → option string.

(** C9. [generateTextColor] leaves the view as it is and its result does not
    depend on the view, only on the colour it is given; when the helpers
    return, it returns 'white' if the background quantizes to 'black' under
    the threshold 160 and 'black' otherwise, and nothing else. *)
Theorem generateTextColor_black_or_white (this this' : PriceAxisView.t) (color : string) :
  snd (generateTextColor parseRgb rgbToBlackWhiteString this color) = this ∧
  fst (generateTextColor parseRgb rgbToBlackWhiteString this color)
    = fst (generateTextColor parseRgb rgbToBlackWhiteString this' color) ∧
  (is_Some (fst (generateTextColor parseRgb rgbToBlackWhiteString this color))
   ↔ is_Some (quantized parseRgb rgbToBlackWhiteString color)) ∧
  (∀ r, fst (generateTextColor parseRgb rgbToBlackWhiteString this color) = Some r →
        r = "black"%string ∨ r = "white"%string) ∧
  (fst (generateTextColor parseRgb rgbToBlackWhiteString this color) = Some "white"%string
   ↔ quantized parseRgb rgbToBlackWhiteString color = Some "black"%string) ∧
  (fst (generateTextColor parseRgb rgbToBlackWhiteString this color) = Some "black"%string
   ↔ ∃ bw, quantized parseRgb rgbToBlackWhiteString color = Some bw ∧ bw ≠ "black"%string).
Proof.
  unfold generateTextColor, quantized. cbn.
  destruct (parseRgb color) as [rgb|]; cbn.
  2:{ repeat split; try done; try by intros [? ?]. by intros (? & ? & _). }
  destruct (rgbToBlackWhiteString rgb 160) as [bw|]; cbn.
  2:{ repeat split; try done; try by intros [? ?]. by intros (? & ? & _). }
  case_decide as Hbw.
  - subst bw. repeat split; try done; eauto.
    + intros r [= <-]. by right.
    + by intros (bw & [= <-] & ?).
  - repeat split; try done; eauto.
    + intros r [= <-]. by left.
    + intros [= ->]. done.
Qed.

End TextColor.

(** The default background of a price axis label, black, gets white text. *)
Lemma generateTextColor_black_or_white_witness :
  fst (PriceAxisView.generateTextColor demoParseRgb demoRgbToBlackWhiteString
         PriceAxisView.new "#000")
  = Some "white"%string.
Proof.
  apply (proj1 (proj2 (proj2 (proj2 (proj2
           (generateTextColor_black_or_white demoParseRgb demoRgbToBlackWhiteString
              PriceAxisView.new PriceAxisView.new "#000")))))).
  reflexivity.
Defined.

(** ** Layout *)

Lemma sumHeights_app l1 l2 : sumHeights (l1 ++ l2) = sumHeights l1 + sumHeights l2.
Proof.
  unfold sumHeights. induction l1 as [|x l1 IH]; cbn; [done|]. rewrite IH. lia.
Qed.

Section Layout.

Context `{Collaborators}.

Variables (o : ChartOptions) (modelPanes : list Pane) (n : nat).
Variables (paneWidth priceAxisWidth totalPaneHeight : Z) (stretchPixels : Q).

Local Abbreviation loop :=
  (layoutLoop o modelPanes n paneWidth priceAxisWidth totalPaneHeight stretchPixels).

Lemma layoutLoop_length paneIndex acc todo :
  length (fst (loop paneIndex acc todo)) = length todo.
Proof.
  revert paneIndex acc. induction todo as [|pw rest IH]; intros paneIndex acc; cbn; [done|].
  by rewrite IH.
Qed.

Lemma layoutLoop_head paneIndex acc paneWidget rest :
  ∃ paneWidget',
    fst (loop paneIndex acc (paneWidget :: rest))
      = paneWidget'
        :: fst (loop (S paneIndex)
                  (acc + Z.max (calculatePaneHeight n paneIndex totalPaneHeight acc
                                  stretchPixels (setState (modelPanes !! paneIndex) paneWidget)) 2)
                  rest) ∧
    pw_size paneWidget'
      = Some (mkSize paneWidth
                (Z.max (calculatePaneHeight n paneIndex totalPaneHeight acc
                          stretchPixels (setState (modelPanes !! paneIndex) paneWidget)) 2)) ∧
    pw_state paneWidget' = modelPanes !! paneIndex.
Proof.
  cbn [layoutLoop fst]. eexists. split; [reflexivity|].
  by destruct (priceScaleShown o).
Qed.

Lemma layoutLoop_each paneIndex acc todo j paneWidget' :
  fst (loop paneIndex acc todo) !! j = Some paneWidget' →
  ∃ x, pw_size paneWidget' = Some (mkSize paneWidth x) ∧ 2 ≤ x ∧
       pw_state paneWidget' = modelPanes !! (paneIndex + j)%nat.
Proof.
  revert paneIndex acc j.
  induction todo as [|pw rest IH]; intros paneIndex acc j; [done|].
  destruct (layoutLoop_head paneIndex acc pw rest) as (pw' & -> & Hsize & Hstate).
  destruct j as [|j]; cbn.
  - intros [= <-]. eexists. split; [exact Hsize|]. split; [lia|].
    by rewrite Nat.add_0_r.
  - intros Hj. apply IH in Hj as (x & ? & ? & ?). exists x.
    by rewrite <- Nat.add_succ_comm.
Qed.

Lemma layoutLoop_inner paneIndex acc todo j paneWidget paneWidget' :
  (S (paneIndex + j) < n)%nat →
  todo !! j = Some paneWidget →
  fst (loop paneIndex acc todo) !! j = Some paneWidget' →
  paneHeight paneWidget'
  = Z.max (Math_round (stretchFactor (setState (modelPanes !! (paneIndex + j)%nat) paneWidget)
                       * stretchPixels)) 2.
Proof.
  revert paneIndex acc j.
  induction todo as [|pw rest IH]; intros paneIndex acc j Hlt; [done|].
  destruct (layoutLoop_head paneIndex acc pw rest) as (pw' & -> & Hsize & Hstate).
  destruct j as [|j]; cbn.
  - intros [= <-] [= <-]. unfold paneHeight. rewrite Hsize. cbn.
    unfold calculatePaneHeight. rewrite Nat.add_0_r in *.
    by rewrite (proj2 (Z.eqb_neq _ _)) by lia.
  - intros Hj Hj'. rewrite <- Nat.add_succ_comm in *. by eapply IH.
Qed.

Lemma layoutLoop_last paneIndex acc todo :
  todo ≠ [] →
  (paneIndex + length todo = n)%nat →
  ∃ front lastPane,
    fst (loop paneIndex acc todo) = front ++ [lastPane] ∧
    paneHeight lastPane = Z.max (totalPaneHeight - (acc + sumHeights front)) 2.
Proof.
  revert paneIndex acc.
  induction todo as [|pw rest IH]; intros paneIndex acc Hne Hlen; [done|].
  destruct (layoutLoop_head paneIndex acc pw rest) as (pw' & -> & Hsize & Hstate).
  destruct rest as [|pw2 rest].
  - exists [], pw'. split; [done|]. unfold paneHeight. rewrite Hsize. cbn.
    unfold calculatePaneHeight. cbn in Hlen.
    rewrite (proj2 (Z.eqb_eq _ _)) by lia. f_equal. lia.
  - edestruct (IH (S paneIndex)) as (front & lastPane & -> & Hlast); [done | cbn in *; lia |].
    exists (pw' :: front), lastPane. split; [done|].
    rewrite Hlast. change (sumHeights (pw' :: front)) with (paneHeight pw' + sumHeights front).
    unfold paneHeight at 1. rewrite Hsize. cbn. f_equal. lia.
Qed.

End Layout.

Lemma Math_round_stretch (s : Q) (total : Z) (totalStretch : Q) :
  Math_round (s * (inject_Z total / totalStretch))
  = Math_round (s * inject_Z total / totalStretch).
Proof.
  unfold Math_round. apply Qfloor_comp. unfold Qdiv. ring.
Qed.

Lemma adjustSizeImpl_paneWidgets `{Collaborators} (W : World) :
  laidOut W
  = fst (layoutLoop (_options (chart W)) (panes (_model (chart W)))
           (length (_paneWidgets (chart W)))
           (Z.max (_width (chart W)
                   - priceAxisWidthOf (_options (chart W)) (_paneWidgets (chart W))) 0)
           (priceAxisWidthOf (_options (chart W)) (_paneWidgets (chart W)))
           (totalPaneHeightOf (chart W))
           (inject_Z (totalPaneHeightOf (chart W)) / totalStretchOf (_paneWidgets (chart W)))
           0%nat 0 (_paneWidgets (chart W))).
Proof. unfold laidOut, _adjustSizeImpl. by case_decide. Qed.



(** ** Synchronising the pane widgets with the model *)

Lemma length_removelast {A} (l : list A) : length (removelast l) = pred (length l).
Proof.
  destruct (last l) as [x|] eqn:Hl.
  - apply last_Some in Hl as [l' ->]. rewrite removelast_last, length_app. cbn. lia.
  - apply last_None in Hl as ->. done.
Qed.

Lemma control_model W W' : control W = control W' → _model (chart W) = _model (chart W').
Proof. unfold control. by intros [= _ _ _ _ _ _ _ _ ->]. Qed.

Section Sync.

Context `{Collaborators}.

Lemma removeStep_length W :
  length (_paneWidgets (chart (removeStep W))) = pred (length (_paneWidgets (chart W))).
Proof.
  unfold removeStep. destruct (last (_paneWidgets (chart W))) as [pw|] eqn:Hl.
  - cbn. destruct (last (_paneSeparators (chart W))); cbn; apply length_removelast.
  - apply last_None in Hl. by rewrite Hl.
Qed.

Lemma removeLoop_length k W :
  length (_paneWidgets (chart (Nat.iter k removeStep W)))
  = (length (_paneWidgets (chart W)) - k)%nat.
Proof.
  induction k as [|k IH]; [cbn; lia|].
  rewrite Nat.iter_succ, removeStep_length, IH. lia.
Qed.

Lemma createStep_length i W :
  (i < length (panes (_model (chart W))))%nat →
  length (_paneWidgets (chart (createStep i W))) = S (length (_paneWidgets (chart W))).
Proof.
  intros Hi. unfold createStep.
  destruct (lookup_lt_is_Some_2 _ _ Hi) as [pane ->].
  destruct (1 <? i)%nat; cbn; rewrite length_app; cbn; lia.
Qed.

Lemma createLoop_length k i W :
  (i + k ≤ length (panes (_model (chart W))))%nat →
  length (_paneWidgets (chart (foldl (λ W i, createStep i W) W (seq i k))))
  = (length (_paneWidgets (chart W)) + k)%nat.
Proof.
  revert i W. induction k as [|k IH]; intros i W Hik; cbn; [lia|].
  rewrite IH.
  - rewrite createStep_length by lia. lia.
  - rewrite (control_model _ _ (control_createStep i W)). lia.
Qed.

Lemma syncStep_length W i :
  length (_paneWidgets (chart (syncStep W i))) = length (_paneWidgets (chart W)).
Proof.
  unfold syncStep. destruct (_ !! i); [|done].
  case_decide; cbn; [apply length_insert | done].
Qed.

Lemma syncLoop_length l W :
  length (_paneWidgets (chart (foldl syncStep W l))) = length (_paneWidgets (chart W)).
Proof.
  revert W. induction l as [|i l IH]; intros W; cbn; [done|].
  by rewrite IH, syncStep_length.
Qed.

Lemma syncGuiWithModel_layout W : _syncGuiWithModel W = _adjustSizeImpl (beforeLayout W).
Proof. reflexivity. Qed.

Lemma control_beforeLayout W : control (beforeLayout W) = control W.
Proof.
  unfold beforeLayout, _updateTimeAxisVisibility. rewrite control_emit.
  rewrite control_foldl by apply control_syncStep.
  rewrite control_foldl by (intros; apply control_createStep).
  apply control_iter, control_removeStep.
Qed.

Lemma beforeLayout_length W :
  length (_paneWidgets (chart (beforeLayout W))) = length (panes (_model (chart W))).
Proof.
  unfold beforeLayout, _updateTimeAxisVisibility. cbn.
  rewrite syncLoop_length.
  set (a := length (_paneWidgets (chart W))).
  set (t := length (panes (_model (chart W)))).
  destruct (decide (a ≤ t)%nat) as [Hle | Hgt].
  - rewrite createLoop_length.
    + rewrite removeLoop_length. fold a. lia.
    + rewrite (control_model _ W) by apply control_iter, control_removeStep.
      fold t. lia.
  - replace (t - a)%nat with 0%nat by lia. cbn.
    rewrite removeLoop_length. fold a. lia.
Qed.

(** After the synchronisation there is one pane widget per pane of the
    model, each showing its pane and each with a size of height at least 2. *)
Lemma syncGuiWithModel_synced W :
  length (_paneWidgets (chart (_syncGuiWithModel W))) = length (panes (_model (chart W))) ∧
  ∀ i paneWidget,
    _paneWidgets (chart (_syncGuiWithModel W)) !! i = Some paneWidget →
    pw_state paneWidget = panes (_model (chart W)) !! i ∧
    is_Some (pw_size paneWidget) ∧ 2 ≤ paneHeight paneWidget.
Proof.
  rewrite syncGuiWithModel_layout.
  change (_paneWidgets (chart (_adjustSizeImpl (beforeLayout W))))
    with (laidOut (beforeLayout W)).
  rewrite adjustSizeImpl_paneWidgets. split.
  - by rewrite layoutLoop_length, beforeLayout_length.
  - intros i pw Hi. apply layoutLoop_each in Hi as (x & Hsize & Hx & Hstate).
    rewrite (control_model _ _ (control_beforeLayout W)) in Hstate.
    unfold paneHeight. rewrite Hsize. by eauto.
Qed.

End Sync.

(** ** Drawing *)

Lemma paint_chart mo W : chart (paint mo W) = chart W.
Proof. unfold paint. cbn. apply chart_foldl_emit. Qed.

Lemma paint_trace m W :
  trace (paint (Some m) W) = trace W ++ paintCalls m (length (_paneWidgets (chart W))).
Proof.
  unfold paint, paintCalls. cbn. rewrite trace_foldl_emit. by rewrite <- app_assoc.
Qed.

Lemma autoScaleLoop_chart m l W : chart (foldl (autoScaleStep m) W l) = chart W.
Proof.
  revert W. induction l as [|i l IH]; intros W; cbn; [done|].
  rewrite IH. unfold autoScaleStep. by destruct (autoScale _).
Qed.

Lemma autoScaleLoop_trace m l W :
  trace (foldl (autoScaleStep m) W l)
  = trace W ++ flat_map (λ i, if autoScale (Mask.invalidateForPane m i)
                              then [PaneMomentaryAutoScale i] else []) l.
Proof.
  revert W. induction l as [|i l IH]; intros W; cbn; [by rewrite app_nil_r|].
  rewrite IH. unfold autoScaleStep.
  destruct (autoScale _); cbn; [by rewrite <- app_assoc | done].
Qed.

Lemma setStateStep_trace W i : trace (setStateStep W i) = trace W.
Proof. unfold setStateStep. by destruct (_ !! i). Qed.

Lemma setStateLoop_trace l W : trace (foldl setStateStep W l) = trace W.
Proof.
  revert W. induction l as [|i l IH]; intros W; cbn; [done|].
  by rewrite IH, setStateStep_trace.
Qed.

(** A predicate on the pane widget at each index that [setState] with the
    pane of that index keeps is kept by the last loop of a Full draw. *)
Lemma setStateLoop_keeps (P : nat → PaneWidget → Prop) l W :
  (∀ i pw, P i pw → P i (setState (panes (_model (chart W)) !! i) pw)) →
  (∀ i pw, _paneWidgets (chart W) !! i = Some pw → P i pw) →
  length (_paneWidgets (chart (foldl setStateStep W l))) = length (_paneWidgets (chart W)) ∧
  ∀ i pw, _paneWidgets (chart (foldl setStateStep W l)) !! i = Some pw → P i pw.
Proof.
  intros HP. revert W HP. induction l as [|j l IH]; intros W HP HW; cbn; [done|].
  assert (_model (chart (setStateStep W j)) = _model (chart W)) as Hmodel
    by apply control_model, control_setStateStep.
  assert (length (_paneWidgets (chart (setStateStep W j))) = length (_paneWidgets (chart W)) ∧
          ∀ i pw, _paneWidgets (chart (setStateStep W j)) !! i = Some pw → P i pw)
    as [Hlen Hstep].
  { unfold setStateStep. destruct (_paneWidgets (chart W) !! j) as [pwj|] eqn:Hj; [|done].
    cbn. split; [apply length_insert|].
    intros i pw. destruct (decide (i = j)) as [-> | Hne].
    - rewrite list_lookup_insert_eq by (by eapply lookup_lt_Some).
      intros [= <-]. by apply HP, HW.
    - rewrite list_lookup_insert_ne by done. apply HW. }
  destruct (IH (setStateStep W j)) as [Hlen' Hall]; [by rewrite Hmodel | done |].
  split; [by rewrite Hlen', Hlen | done].
Qed.

Section Drawing.

Context `{Collaborators}.

Lemma drawImpl_Light m W :
  Mask.fullInvalidation m = InvalidationLevel.Light →
  chart (_drawImpl m W) = chart W ∧
  trace (_drawImpl m W)
  = trace W ++ fitContentCalls m ++ [TimeAxisWidgetUpdate]
    ++ paintCalls m (length (_paneWidgets (chart W))).
Proof.
  intros Hl. unfold _drawImpl. rewrite Hl, paint_chart, paint_trace.
  unfold fitContentCalls. destruct (Mask.getFitContent m); cbn.
  - split; [done|]. by rewrite <- !app_assoc.
  - split; [done|]. by rewrite <- !app_assoc.
Qed.

Lemma drawImpl_None m W :
  Mask.fullInvalidation m = InvalidationLevel.None →
  chart (_drawImpl m W) = chart W ∧
  trace (_drawImpl m W) = trace W ++ paintCalls m (length (_paneWidgets (chart W))).
Proof. intros Hl. unfold _drawImpl. by rewrite Hl, paint_chart, paint_trace. Qed.

Lemma drawImpl_Full m W :
  Mask.fullInvalidation m = InvalidationLevel.Full →
  length (_paneWidgets (chart (_drawImpl m W))) = length (panes (_model (chart W))) ∧
  (∀ i paneWidget,
     _paneWidgets (chart (_drawImpl m W)) !! i = Some paneWidget →
     pw_state paneWidget = panes (_model (chart W)) !! i ∧
     is_Some (pw_size paneWidget) ∧ 2 ≤ paneHeight paneWidget) ∧
  trace (_drawImpl m W)
  = trace (_syncGuiWithModel W) ++ fitContentCalls m
    ++ autoScaleCalls m (length (panes (_model (chart W))))
    ++ [TimeAxisWidgetUpdate]
    ++ paintCalls m (length (panes (_model (chart W)))).
Proof.
  intros Hl. unfold _drawImpl. rewrite Hl, paint_chart, paint_trace. unfold _updateGui.
  set (G := _syncGuiWithModel W).
  set (G1 := if Mask.getFitContent m then emit TimeScaleFitContent G else G).
  assert (chart G1 = chart G) as HG1 by (subst G1; by destruct (Mask.getFitContent m)).
  assert (trace G1 = trace G ++ fitContentCalls m) as HT1.
  { subst G1. unfold fitContentCalls.
    destruct (Mask.getFitContent m); cbn; [done | by rewrite app_nil_r]. }
  assert (_model (chart G) = _model (chart W)) as HM
    by apply control_model, control_syncGuiWithModel.
  destruct (syncGuiWithModel_synced W) as [Hlen Hall]. fold G in Hlen, Hall.
  set (G2 := emit TimeAxisWidgetUpdate (foldl (autoScaleStep m) G1 _)).
  assert (chart G2 = chart G) as HG2
    by (subst G2; cbn; by rewrite autoScaleLoop_chart).
  destruct (setStateLoop_keeps
              (λ i pw, pw_state pw = panes (_model (chart W)) !! i ∧
                       is_Some (pw_size pw) ∧ 2 ≤ paneHeight pw)
              (seq 0 (length (_paneWidgets (chart G2)))) G2) as [Hlen' Hall'].
  { intros i pw (_ & Hsize & Hh). rewrite HG2, HM. done. }
  { rewrite HG2. exact Hall. }
  split; [by rewrite Hlen', HG2|]. split; [exact Hall'|].
  rewrite Hlen', HG2, Hlen, setStateLoop_trace. subst G2. cbn.
  rewrite autoScaleLoop_trace, HT1, HG1, HM. unfold autoScaleCalls.
  by rewrite <- !app_assoc.
Qed.

End Drawing.

(** ** Traces only grow *)

Lemma prefix_emit e W : trace W `prefix_of` trace (emit e W).
Proof. by exists [e]. Qed.

Lemma prefix_foldl {A} (f : World → A → World) l W :
  (∀ W a, trace W `prefix_of` trace (f W a)) → trace W `prefix_of` trace (foldl f W l).
Proof.
  intros Hf. revert W. induction l as [|a l IH]; intros W; cbn; [done|].
  etrans; [apply Hf | apply IH].
Qed.

Lemma prefix_iter (f : World → World) k W :
  (∀ W, trace W `prefix_of` trace (f W)) → trace W `prefix_of` trace (Nat.iter k f W).
Proof.
  intros Hf. induction k as [|k IH]; [done|].
  rewrite Nat.iter_succ. etrans; [apply IH | apply Hf].
Qed.

Section TraceGrows.

Context `{Collaborators}.

Lemma prefix_removeStep W : trace W `prefix_of` trace (removeStep W).
Proof.
  unfold removeStep. destruct (last (_paneWidgets (chart W))); [|done].
  cbn. destruct (last (_paneSeparators (chart W))); cbn.
  - eexists [_; _]. by rewrite <- app_assoc.
  - by eexists [_].
Qed.

Lemma prefix_createStep W i : trace W `prefix_of` trace (createStep i W).
Proof.
  unfold createStep. destruct (_ !! i); [|done].
  destruct (1 <? i)%nat; cbn.
  - eexists [_; _]. by rewrite <- app_assoc.
  - by eexists [_].
Qed.

Lemma prefix_syncStep W i : trace W `prefix_of` trace (syncStep W i).
Proof.
  unfold syncStep. destruct (_ !! i); [|done].
  case_decide; cbn; [done | by eexists [_]].
Qed.

Lemma prefix_adjustSizeImpl W : trace W `prefix_of` trace (_adjustSizeImpl W).
Proof. unfold _adjustSizeImpl. case_decide; cbn; by eexists. Qed.

Lemma prefix_syncGuiWithModel W : trace W `prefix_of` trace (_syncGuiWithModel W).
Proof.
  unfold _syncGuiWithModel.
  etrans; [|apply prefix_adjustSizeImpl].
  etrans; [|apply prefix_emit].
  etrans; [|apply prefix_foldl, prefix_syncStep].
  etrans; [|apply (prefix_foldl (λ W i, createStep i W)), prefix_createStep].
  apply prefix_iter, prefix_removeStep.
Qed.

End TraceGrows.

Lemma level_max_Full_r a : InvalidationLevel.max a InvalidationLevel.Full = InvalidationLevel.Full.
Proof. by destruct a. Qed.

Lemma autoScaleCalls_new l n : autoScaleCalls (Mask.new l) n = [].
Proof.
  unfold autoScaleCalls. generalize (seq 0 n); intros idx.
  induction idx as [|i idx IH]; cbn; [done|]. by rewrite IH.
Qed.

(** ** Resizing *)

(** C4. [resize] with the stored dimensions returns without changing
    anything, whatever [forceRepaint] is. With other dimensions, on a chart
    that is not destroyed, it stores them and then, if [forceRepaint] is
    true, runs a Full draw within the call (it synchronises, lays out and
    paints; nothing is scheduled and the pending mask stays), and otherwise
    hands a Full mask to the invalidation handler, which draws nothing but
    leaves a pending mask of Full severity and a planned draw. *)
Theorem resize_behaviour `{Collaborators} (W : World) (height width : Z) (forceRepaint : bool) :
  (_height (chart W) = height ∧ _width (chart W) = width →
     resize height width forceRepaint W = Returned W) ∧
  (¬ (_height (chart W) = height ∧ _width (chart W) = width) →
   _element (chart W) = true →
   ∃ W',
     resize height width forceRepaint W = Returned W' ∧
     _height (chart W') = height ∧ _width (chart W') = width ∧
     if forceRepaint
     then
       W' = _drawImpl (Mask.new InvalidationLevel.Full) (resized height width W) ∧
       window W' = window W ∧
       _invalidateMask (chart W') = _invalidateMask (chart W) ∧
       _drawPlanned (chart W') = _drawPlanned (chart W) ∧
       trace W'
       = trace (_syncGuiWithModel (resized height width W))
         ++ [TimeAxisWidgetUpdate]
         ++ paintCalls (Mask.new InvalidationLevel.Full) (length (panes (_model (chart W))))
     else
       W' = _invalidateHandler (Mask.new InvalidationLevel.Full) (resized height width W) ∧
       trace W' = trace W ++ [ElementStyleSize height width] ∧
       _paneWidgets (chart W') = _paneWidgets (chart W) ∧
       _drawPlanned (chart W') = true ∧
       ∃ pending,
         _invalidateMask (chart W') = Some pending ∧
         severity pending = InvalidationLevel.Full).
Proof.
  split.
  - intros [<- <-]. unfold resize. by rewrite !Z.eqb_refl.
  - intros Hne He. unfold resize.
    destruct (_ && _) eqn:Hsame.
    { apply andb_true_iff in Hsame as [?%Z.eqb_eq ?%Z.eqb_eq]. by destruct Hne. }
    cbn. rewrite He. fold (resized height width W).
    destruct forceRepaint.
    + eexists. split; [reflexivity|].
      pose proof (control_fields _ _
        (control_drawImpl (Mask.new InvalidationLevel.Full) (resized height width W)))
        as (Hw & Hp & _ & Hm & _ & Hh & Hwd).
      rewrite Hh, Hwd, Hw, Hp, Hm.
      destruct (drawImpl_Full (Mask.new InvalidationLevel.Full) (resized height width W) eq_refl)
        as (_ & _ & ->).
      by rewrite autoScaleCalls_new.
    + eexists. split; [reflexivity|].
      unfold fullUpdate.
      destruct (_drawPlanned (chart W)) eqn:Hp.
      * rewrite invalidateHandler_planned by done. cbn. repeat split; try done.
        eexists. split; [reflexivity|].
        destruct (_invalidateMask (chart W)); cbn; [apply level_max_Full_r | done].
      * rewrite invalidateHandler_idle by done. cbn. repeat split; try done.
        eexists. split; [reflexivity|].
        destruct (_invalidateMask (chart W)); cbn; [apply level_max_Full_r | done].
Qed.

(** On the chart just constructed, 300 high and 400 wide: resizing to that
    size does nothing, and a forced resize to 500 by 600 lays the three panes
    out again within the call, in the 471 pixels that are left for them. *)
Lemma resize_behaviour_witness :
  resize (H := demoCollaborators) 300 400 true demoWorld = Returned demoWorld ∧
  map paneHeight
    (_paneWidgets (chart (worldOf (resize (H := demoCollaborators) 500 600 true demoWorld))))
  = [157; 157; 157].
Proof.
  split.
  - apply (proj1 (resize_behaviour (H := demoCollaborators) demoWorld 300 400 true)).
    split; reflexivity.
  - destruct (proj2 (resize_behaviour (H := demoCollaborators) demoWorld 500 600 true))
      as (W' & -> & _ & _ & -> & _).
    + intros [Hh _]. vm_compute in Hh. discriminate Hh.
    + reflexivity.
    + vm_compute. reflexivity.
Defined.

(** ** Drawing by severity *)




(** * Further properties *)

(** ** The series pane view between updates *)

Section PaneViewSequences.

Import SeriesPaneViewBase.

Context {ItemType BarsRange SeriesItemsIndexesRange PriceValue : Type}.
Context `{!Subclass ItemType BarsRange SeriesItemsIndexesRange PriceValue}.

Local Abbreviation View := (SeriesPaneViewBase.t ItemType SeriesItemsIndexesRange).
Local Abbreviation SeriesOf := (Series PriceValue).
Local Abbreviation ModelOf := (Model BarsRange).

Lemma makeValid_clean (series : SeriesOf) (model : ModelOf) (v : View) :
  _invalidated v = false → _dataInvalidated v = false →
  _makeValid series model v = Returned v.
Proof. intros Hi Hd. unfold _makeValid. by rewrite Hd, Hi. Qed.

Lemma makeValid_returned_flags (series : SeriesOf) (model : ModelOf) (v v' : View) :
  _makeValid series model v = Returned v' →
  _invalidated v' = false ∧ _dataInvalidated v' = false.
Proof.
  unfold _makeValid.
  set (v1 := if _dataInvalidated v then _ else v).
  assert (_dataInvalidated v1 = false) as Hd
    by (subst v1; by destruct (_dataInvalidated v) eqn:E).
  destruct (_invalidated v1) eqn:Hi.
  - pose proof (updatePoints_flags series model v1) as [_ Hd'].
    destruct (_updatePoints series model v1) as [v2|v2]; [|done].
    intros [= <-]. cbn in *. by rewrite Hd' in *.
  - by intros [= <-].
Qed.

Lemma makeValid_calls (series : SeriesOf) (model : ModelOf) (v : View) :
  calls (viewOf (_makeValid series model v)) = calls v ++ resolutionCalls series model v.
Proof.
  unfold _makeValid, resolutionCalls.
  destruct (_dataInvalidated v) eqn:Hd, (_invalidated v) eqn:Hi; cbn; rewrite ?Hi; cbn.
  - match goal with |- context [_updatePoints series model ?v1] =>
      pose proof (updatePoints_calls series model v1) as Hc;
      destruct (_updatePoints series model v1) end; cbn in *;
      by rewrite Hc, <- app_assoc.
  - done.
  - pose proof (updatePoints_calls series model v) as Hc.
    by destruct (_updatePoints series model v).
  - by rewrite app_nil_r.
Qed.

(** X1. A view that [_makeValid] has resolved is not resolved again: a
    second [_makeValid] returns it unchanged and calls neither
    [_fillRawPoints] nor [_updatePoints], even with a series and scales that
    have changed in between; only [update] makes it recompute. *)
Theorem makeValid_idempotent (series series' : SeriesOf) (model model' : ModelOf)
    (v v' : View) :
  _makeValid series model v = Returned v' →
  _makeValid series' model' v' = Returned v' ∧
  resolutionCalls series' model' v' = [].
Proof.
  intros Hv. apply makeValid_returned_flags in Hv as [Hi Hd].
  split; [by apply makeValid_clean|].
  unfold resolutionCalls. by rewrite Hi, Hd.
Qed.

Lemma updateAll_fields (us : list (option string)) (v : View) :
  _dataInvalidated (updateAll us v)
    = _dataInvalidated v || existsb (λ u, bool_decide (u = Some "data"%string)) us ∧
  _invalidated (updateAll us v) = _invalidated v || negb (bool_decide (us = [])) ∧
  _items (updateAll us v) = _items v ∧
  _itemsVisibleRange (updateAll us v) = _itemsVisibleRange v ∧
  calls (updateAll us v) = calls v.
Proof.
  revert v. induction us as [|u us IH]; intros v.
  - cbn. by rewrite !orb_false_r.
  - unfold updateAll in *. cbn [foldl existsb].
    destruct (IH (update u v)) as (-> & -> & -> & -> & ->).
    unfold update. case_decide as Hu; cbn.
    + rewrite bool_decide_true by done. cbn. by rewrite !orb_true_r.
    + rewrite bool_decide_false by done. cbn. by rewrite !orb_true_r.
Qed.

(** X2. Updates coalesce: however many updates a view receives, the next
    [_makeValid] calls [_updatePoints] once, and [_fillRawPoints] once if the
    view was data-dirty or one of the updates was of kind 'data' and not at
    all otherwise; the updates themselves touch neither the items nor the
    visible range. *)
Theorem updates_coalesce (series : SeriesOf) (model : ModelOf)
    (u : option string) (us : list (option string)) (v : View) :
  _items (updateAll (u :: us) v) = _items v ∧
  _itemsVisibleRange (updateAll (u :: us) v) = _itemsVisibleRange v ∧
  calls (viewOf (_makeValid series model (updateAll (u :: us) v)))
  = calls v
    ++ (if _dataInvalidated v
           || existsb (λ u, bool_decide (u = Some "data"%string)) (u :: us)
        then [FillRawPoints] else [])
    ++ UpdatePoints ::
       (if nothingToShow series model then []
        else if firstValue series is Some _ then [ConvertToCoordinates] else []).
Proof.
  destruct (updateAll_fields (u :: us) v) as (Hd & Hi & Hitems & Hrange & Hcalls).
  split; [done|]. split; [done|].
  rewrite makeValid_calls, Hcalls. unfold resolutionCalls.
  rewrite Hd, Hi. cbn [bool_decide]. rewrite bool_decide_false by done.
  by rewrite orb_true_r.
Qed.

(** X3. When there is something to show but the series has no first value,
    [_makeValid] on a geometry-dirty view throws after it has rebuilt the raw
    points (if data-dirty) and replaced the visible range: the view is left
    geometry-dirty and not data-dirty, so the next [_makeValid] calls
    [_updatePoints] again and never [_fillRawPoints]. *)
Theorem makeValid_throws_and_retries (series series' : SeriesOf) (model model' : ModelOf)
    (v : View) :
  _invalidated v = true →
  nothingToShow series model = false →
  firstValue series = None →
  ∃ v' bars,
    _makeValid series model v = Threw v' ∧
    _invalidated v' = true ∧ _dataInvalidated v' = false ∧
    visibleBars (timeScale model) = Some bars ∧
    _itemsVisibleRange v' = Some (visibleTimedValues (_items v') bars) ∧
    _items v' = (if _dataInvalidated v then _fillRawPoints series (_items v) else _items v) ∧
    resolutionCalls series' model' v'
    = UpdatePoints ::
        (if nothingToShow series' model' then []
         else if firstValue series' is Some _ then [ConvertToCoordinates] else []).
Proof.
  intros Hi Hshow Hfirst. unfold _makeValid.
  set (v1 := if _dataInvalidated v then _ else v).
  assert (_dataInvalidated v1 = false) as Hd1
    by (subst v1; by destruct (_dataInvalidated v) eqn:E).
  assert (_invalidated v1 = true) as Hi1 by (subst v1; by destruct (_dataInvalidated v)).
  assert (_items v1 = (if _dataInvalidated v then _fillRawPoints series (_items v) else _items v))
    as Hitems by (subst v1; by destruct (_dataInvalidated v)).
  rewrite Hi1. clearbody v1.
  unfold nothingToShow in Hshow. unfold _updatePoints.
  destruct (timeScale_isEmpty (timeScale model)); [done|].
  destruct (priceScale_isEmpty (priceScale series)); [done|].
  destruct (visibleBars (timeScale model)) as [bars|]; [|done].
  destruct (bars_size series); [done|]. cbn. rewrite Hfirst.
  eexists _, bars. split; [reflexivity|]. cbn.
  repeat split; try done.
  unfold resolutionCalls. cbn. by rewrite Hi1, Hd1.
Qed.

End PaneViewSequences.

(** A new view of a series of three bars, resolved once, is returned as it is
    by a second resolution against an empty series. *)
Lemma makeValid_idempotent_witness :
  ∃ v',
    SeriesPaneViewBase._makeValid (H := demoSubclass) (demoSeries 3) (demoModel 3)
      SeriesPaneViewBase.new = SeriesPaneViewBase.Returned v' ∧
    SeriesPaneViewBase._makeValid (H := demoSubclass) (demoSeries 0) (demoModel 0) v'
    = SeriesPaneViewBase.Returned v'.
Proof.
  assert (∃ v', SeriesPaneViewBase._makeValid (H := demoSubclass) (demoSeries 3)
                  (demoModel 3) SeriesPaneViewBase.new = SeriesPaneViewBase.Returned v')
    as [v' Hv'] by (eexists; reflexivity).
  exists v'. split; [exact Hv'|].
  exact (proj1 (makeValid_idempotent (Subclass0 := demoSubclass)
                  (demoSeries 3) (demoSeries 0) (demoModel 3) (demoModel 0) _ v' Hv')).
Defined.

(** A new view of a series without a first value throws, and stays
    geometry-dirty. *)
Lemma makeValid_throws_and_retries_witness :
  ∃ v',
    SeriesPaneViewBase._makeValid (H := demoSubclass) demoSeriesNoFirstValue (demoModel 3)
      SeriesPaneViewBase.new = SeriesPaneViewBase.Threw v' ∧
    SeriesPaneViewBase._invalidated v' = true ∧
    SeriesPaneViewBase._dataInvalidated v' = false.
Proof.
  destruct (makeValid_throws_and_retries (Subclass0 := demoSubclass)
              demoSeriesNoFirstValue demoSeriesNoFirstValue (demoModel 3) (demoModel 3)
              SeriesPaneViewBase.new eq_refl eq_refl eq_refl)
    as (v' & bars & Hv & Hi & Hd & _).
  exists v'. exact (conj Hv (conj Hi Hd)).
Defined.

(** ** The price axis view refreshes lazily *)

Section PriceAxisRefresh.

Import PriceAxisViewClass.

Variable _updateRendererData :
  RendererData → RendererData → CommonData → RendererData * RendererData * CommonData.

Lemma updateCalls_snoc this c :
  length (filter (λ c, c = UpdateRendererData) (calls this ++ [c]))
  = (updateCalls this + (if decide (c = UpdateRendererData) then 1 else 0))%nat.
Proof.
  unfold updateCalls. rewrite filter_app, length_app. f_equal.
  rewrite filter_cons, filter_nil. by case_decide.
Qed.

(** What a reader does to a view: it refreshes the data if the view is
    invalidated, and a renderer getter then hands the data to both
    renderers. *)
Lemma after_fields (r : Reader) (this : t) :
  _invalidated (after _updateRendererData r this) = false ∧
  dataOf (after _updateRendererData r this)
    = (if _invalidated this
       then _updateRendererData (_axisRendererData this) (_paneRendererData this)
              (_commonRendererData this)
       else dataOf this) ∧
  updateCalls (after _updateRendererData r this)
    = (updateCalls this + (if _invalidated this then 1 else 0))%nat.
Proof.
  unfold dataOf.
  destruct r; cbn; unfold _updateRendererDataIfNeeded;
    destruct (_invalidated this) eqn:Hi; cbn;
    repeat (split; [try done; by destruct (_updateRendererData _ _ _) as [[? ?] ?]|]);
    unfold updateCalls; cbn;
    rewrite ?filter_app, ?length_app, ?filter_cons, ?filter_nil; cbn;
    repeat case_decide; try done; cbn; lia.
Qed.

Lemma readAll_valid (rs : list Reader) (this : t) :
  _invalidated this = false →
  _invalidated (readAll _updateRendererData rs this) = false ∧
  dataOf (readAll _updateRendererData rs this) = dataOf this ∧
  updateCalls (readAll _updateRendererData rs this) = updateCalls this.
Proof.
  revert this. induction rs as [|r rs IH]; intros this Hi; [done|].
  unfold readAll in *. cbn [foldl].
  destruct (after_fields r this) as (Hi' & Hd & Hc). rewrite Hi in Hd, Hc.
  destruct (IH _ Hi') as (-> & -> & ->). rewrite Hd, Hc. repeat split. lia.
Qed.

(** X4. The renderer data of a price axis view is brought up to date
    lazily: after [update], whatever readers follow ([coordinate],
    [floatCoordinate], [isVisible], [isAxisLabelVisible], [isPaneLabelVisible],
    [renderer], [paneRenderer]) and however many, [_updateRendererData] is
    called exactly once, by the first of them, on the data as they were;
    readers of a view that is up to date never call it and leave the data as
    they are. *)
Theorem readers_refresh_once (this : t) (r : Reader) (rs : list Reader) :
  (_invalidated (readAll _updateRendererData (r :: rs) (update this)) = false ∧
   dataOf (readAll _updateRendererData (r :: rs) (update this))
     = _updateRendererData (_axisRendererData this) (_paneRendererData this)
         (_commonRendererData this) ∧
   updateCalls (readAll _updateRendererData (r :: rs) (update this))
     = S (updateCalls this)) ∧
  (_invalidated this = false →
   dataOf (readAll _updateRendererData (r :: rs) this) = dataOf this ∧
   updateCalls (readAll _updateRendererData (r :: rs) this) = updateCalls this).
Proof.
  split.
  - unfold readAll. cbn [foldl].
    destruct (after_fields r (update this)) as (Hi & Hd & Hc). cbn in Hd, Hc.
    destruct (readAll_valid rs _ Hi) as (Hi' & Hd' & Hc').
    unfold readAll in *. rewrite Hi', Hd', Hc', Hd, Hc.
    repeat split. unfold updateCalls. cbn. lia.
  - intros Hi. by destruct (readAll_valid (r :: rs) this Hi) as (_ & ? & ?).
Qed.

(** X5. The fixed coordinate of a price axis view reads back as it was set
    (a view that was never given one answers 0), and setting it neither
    invalidates the view nor touches the other data. *)
Theorem fixedCoordinate_round_trip (this : t) (value : Q) :
  (getFixedCoordinate (setFixedCoordinate value this) == value)%Q ∧
  getFixedCoordinate new = 0%Q ∧
  _invalidated (setFixedCoordinate value this) = _invalidated this ∧
  calls (setFixedCoordinate value this) = calls this ∧
  _axisRendererData (setFixedCoordinate value this) = _axisRendererData this ∧
  _paneRendererData (setFixedCoordinate value this) = _paneRendererData this ∧
  c_coordinate (_commonRendererData (setFixedCoordinate value this))
    = c_coordinate (_commonRendererData this) ∧
  c_floatCoordinate (_commonRendererData (setFixedCoordinate value this))
    = c_floatCoordinate (_commonRendererData this).
Proof.
  repeat split. unfold getFixedCoordinate, setFixedCoordinate. cbn.
  destruct (Qeq_bool value 0) eqn:Hz; [|reflexivity].
  apply Qeq_bool_iff in Hz. by rewrite Hz.
Qed.

End PriceAxisRefresh.

(** ** Drawing several lines *)

Section DrawLines.

Import PrimFloat DrawLine.

Lemma drawLine_calls (ctx : CanvasRenderingContext2D) (x1 y1 x2 y2 : float)
    (lineStyle : LineStyle) :
  lineWidth (drawLine ctx x1 y1 x2 y2 lineStyle) = lineWidth ctx ∧
  canvasCalls (drawLine ctx x1 y1 x2 y2 lineStyle)
  = canvasCalls ctx
    ++ (if segmentFinite (x1, y1, x2, y2)
        then segmentCalls ctx (x1, y1, x2, y2) lineStyle else []).
Proof.
  unfold drawLine, segmentFinite, segmentCalls, setLineStyle, call.
  destruct (isFinite x1), (isFinite y1), (isFinite x2), (isFinite y2); cbn;
    rewrite ?app_nil_r, <- ?app_assoc; done.
Qed.

Lemma dashPatterns_lineWidth (ctx ctx' : CanvasRenderingContext2D) (lineStyle : LineStyle) :
  lineWidth ctx = lineWidth ctx' → dashPatterns ctx lineStyle = dashPatterns ctx' lineStyle.
Proof. unfold dashPatterns. by intros ->. Qed.

Lemma strokes_app l1 l2 : strokes (l1 ++ l2) = (strokes l1 + strokes l2)%nat.
Proof. unfold strokes. by rewrite filter_app, length_app. Qed.

(** X6. Drawing a list of segments draws each segment whose four coordinates
    are finite, in order and each with its own save, dash pattern, path,
    stroke and restore, and skips the others: a segment with a NaN or an
    infinite coordinate does not keep the segments after it from being drawn,
    the number of strokes is the number of finite segments, and the line
    width of the context is as before. *)
Theorem drawLines_skips_only_bad_segments (ctx : CanvasRenderingContext2D)
    (segments : list (float * float * float * float)) (lineStyle : LineStyle) :
  lineWidth (drawLines ctx segments lineStyle) = lineWidth ctx ∧
  canvasCalls (drawLines ctx segments lineStyle)
  = canvasCalls ctx
    ++ flat_map (λ segment, if segmentFinite segment
                            then segmentCalls ctx segment lineStyle else [])
         segments ∧
  strokes (canvasCalls (drawLines ctx segments lineStyle))
  = (strokes (canvasCalls ctx) + length (filter (λ s, segmentFinite s = true) segments))%nat.
Proof.
  assert (∀ ctx0, lineWidth ctx0 = lineWidth ctx →
            lineWidth (drawLines ctx0 segments lineStyle) = lineWidth ctx ∧
            canvasCalls (drawLines ctx0 segments lineStyle)
            = canvasCalls ctx0
              ++ flat_map (λ segment, if segmentFinite segment
                                      then segmentCalls ctx segment lineStyle else [])
                   segments) as Hgen.
  { induction segments as [|[[[x1 y1] x2] y2] segments IH]; intros ctx0 Hw.
    - cbn. by rewrite app_nil_r.
    - unfold drawLines in *. cbn [foldl flat_map].
      destruct (drawLine_calls ctx0 x1 y1 x2 y2 lineStyle) as [Hw' Hc'].
      destruct (IH (drawLine ctx0 x1 y1 x2 y2 lineStyle)) as [-> ->]; [congruence|].
      split; [done|]. rewrite Hc', <- app_assoc. do 2 f_equal.
      destruct (segmentFinite (x1, y1, x2, y2)); [|done].
      unfold segmentCalls. by rewrite (dashPatterns_lineWidth ctx0 ctx). }
  destruct (Hgen ctx eq_refl) as [Hw Hc]. split; [done|]. split; [done|].
  rewrite Hc, strokes_app. f_equal.
  clear. induction segments as [|[[[x1 y1] x2] y2] segments IH]; [done|].
  cbn [flat_map]. rewrite strokes_app, IH, filter_cons.
  destruct (segmentFinite (x1, y1, x2, y2)) eqn:Hf.
  - rewrite decide_True by done. done.
  - rewrite decide_False by done. done.
Qed.

(** Three segments, the second with a NaN end point: two strokes. *)
Lemma drawLines_skips_only_bad_segments_witness :
  strokes (canvasCalls (drawLines (mkCtx 1 [])
             [(0, 0, 1, 1); (1, 1, nan, 2); (2, 2, 3, 3)]%float Solid))
  = 2%nat.
Proof.
  rewrite (proj2 (proj2 (drawLines_skips_only_bad_segments (mkCtx 1 [])
                           [(0, 0, 1, 1); (1, 1, nan, 2); (2, 2, 3, 3)]%float Solid))).
  reflexivity.
Defined.

End DrawLines.

(** ** The mouse wheel *)

Lemma Qeq_bool_scaled (a k : Q) :
  ¬ (k == 0)%Q → Qeq_bool (a * k) 0 = Qeq_bool a 0.
Proof.
  intros Hk. apply eq_true_iff_eq. rewrite !Qeq_bool_iff. split.
  - intros Hak. apply Qmult_integral in Hak as [Ha | Hk0]; [done | by destruct Hk].
  - intros ->. ring.
Qed.

Lemma Qeq_bool_opp (a : Q) : Qeq_bool (- a) 0 = Qeq_bool a 0.
Proof.
  apply eq_true_iff_eq. rewrite !Qeq_bool_iff. split; intros Ha; lra.
Qed.

Lemma wheelFactor_pos (event : WheelEvent) : (0 < wheelFactor event)%Q.
Proof.
  unfold wheelFactor. destruct (_ =? DOM_DELTA_PAGE); [reflexivity|].
  destruct (_ =? DOM_DELTA_LINE); reflexivity.
Qed.

(** The calls of [_onMousewheel], with the deltas as it has scaled them. *)
Lemma onMousewheel_shape (o : HandleOptions) (elementLeft : Q) (event : WheelEvent) :
  _onMousewheel o elementLeft event
  = if wheelZooms o event || wheelScrolls o event
    then
      PreventDefault ::
        (if wheelZooms o event
         then [ZoomTime (clientX event - elementLeft)
                 (Math_sign (- (deltaY event / 100) * wheelFactor event)
                  * Qmin 1 (Qabs (- (deltaY event / 100) * wheelFactor event)))]
         else [])
        ++ (if wheelScrolls o event
            then [ScrollChart (deltaX event / 100 * wheelFactor event * -80)]
            else [])
    else [].
Proof.
  pose proof (wheelFactor_pos event) as Hf.
  assert (¬ (wheelFactor event == 0)%Q) as Hf0 by lra.
  assert (¬ (/ 100 == 0)%Q) as H100 by done.
  unfold _onMousewheel, wheelZooms, wheelScrolls. fold (wheelFactor event).
  unfold Qdiv.
  rewrite !Qeq_bool_scaled by done. rewrite !Qeq_bool_opp.
  rewrite !Qeq_bool_scaled by done.
  destruct (Qeq_bool (deltaX event) 0), (Qeq_bool (deltaY event) 0),
    (handleScroll_mouseWheel o), (handleScale_mouseWheel o); reflexivity.
Qed.


Lemma wheel_calls_elem (a b : bool) (p0 z0 s0 : Q) (c : WheelCall) :
  c ∈ (if a || b
       then PreventDefault ::
              (if a then [ZoomTime p0 z0] else []) ++ (if b then [ScrollChart s0] else [])
       else []) →
  c = PreventDefault ∨ (a = true ∧ c = ZoomTime p0 z0) ∨ (b = true ∧ c = ScrollChart s0).
Proof.
  destruct a, b; cbn [orb app]; intros Hin; apply list_elem_of_In in Hin;
    cbn [In] in Hin; intuition.
Qed.





(** ** The parameters of a mouse event *)

Section MouseEventParams.

Context {BarValue TimePoint : Type} `{!MouseModel BarValue TimePoint}.

Lemma seriesPrices_foldl (index : Z) (l : list SeriesId) (acc : gmap SeriesId Q)
    (s : SeriesId) :
  foldl (λ seriesPrices s,
           match valueAt s index with
           | Some prices => <[s := barFunction s prices]> seriesPrices
           | None => seriesPrices
           end) acc l !! s
  = if decide (s ∈ l)
    then match valueAt s index with
         | Some prices => Some (barFunction s prices)
         | None => acc !! s
         end
    else acc !! s.
Proof.
  revert acc. induction l as [|s' l IH]; intros acc.
  - cbn. by rewrite decide_False by apply not_elem_of_nil.
  - cbn [foldl]. rewrite IH. destruct (decide (s = s')) as [<- | Hne].
    + rewrite (decide_True (P := s ∈ s :: l)) by apply list_elem_of_here.
      destruct (valueAt s index) as [prices|] eqn:Hv.
      * rewrite lookup_insert_eq. by case_decide.
      * by case_decide.
    + assert (s ∈ s' :: l ↔ s ∈ l) as Hin.
      { rewrite elem_of_cons. split; [by intros [? | ?] | by right]. }
      assert ((match valueAt s' index with
               | Some prices => <[s' := barFunction s' prices]> acc
               | None => acc
               end) !! s = acc !! s) as ->.
      { destruct (valueAt s' index); [|done]. by rewrite lookup_insert_ne. }
      destruct (decide (s ∈ l)) as [Hl | Hl].
      * rewrite decide_True by by apply Hin. done.
      * rewrite decide_False by (intros ?; by apply Hl, Hin). done.
Qed.

(** X10. The series prices [_getMouseEventParamsImpl] reports hold, for a
    bar index, exactly the series of the model that have a value at that
    index, each with its bar function applied to that value, and no other
    series; without a bar index the prices are empty and so is the time. A
    series that occurs twice in the model is reported once. *)
Theorem mouseEventParams_prices (index : option Z) (position : option Point)
    (s : SeriesId) :
  seriesPrices (_getMouseEventParamsImpl index position) !! s
  = (i ← index;
     if decide (s ∈ serieses) then barFunction s <$> valueAt s i else None) ∧
  (is_Some (seriesPrices (_getMouseEventParamsImpl index position) !! s) →
   s ∈ serieses ∧ is_Some index) ∧
  (index = None →
   seriesPrices (_getMouseEventParamsImpl index position) = ∅ ∧
   time (_getMouseEventParamsImpl index position) = None) ∧
  (is_Some (time (_getMouseEventParamsImpl index position)) →
   ∃ i, index = Some i ∧
        time (_getMouseEventParamsImpl index position) = indexToUserTime i).
Proof.
  assert (seriesPrices (_getMouseEventParamsImpl index position) !! s
          = (i ← index;
             if decide (s ∈ serieses) then barFunction s <$> valueAt s i else None))
    as Hlookup.
  { destruct index as [i|]; cbn; [|apply lookup_empty].
    rewrite seriesPrices_foldl. case_decide; [|apply lookup_empty].
    destruct (valueAt s i); [done | apply lookup_empty]. }
  split; [done|]. split; [|split].
  - rewrite Hlookup. destruct index as [i|]; cbn; [|by intros [? ?]].
    case_decide; [by eauto | by intros [? ?]].
  - by intros ->.
  - destruct index as [i|]; cbn; [by eauto | by intros [? ?]].
Qed.

End MouseEventParams.

(** ** What the controller does without painting *)

Lemma quiet_refl W : quiet W W.
Proof. exists []. by rewrite app_nil_r. Qed.

Lemma quiet_trans W1 W2 W3 : quiet W1 W2 → quiet W2 W3 → quiet W1 W3.
Proof.
  intros (l1 & H1 & F1) (l2 & H2 & F2). exists (l1 ++ l2).
  split; [by rewrite H2, H1, app_assoc | by apply Forall_app].
Qed.

Lemma quiet_trace W W' : trace W' = trace W → quiet W W'.
Proof. intros Ht. exists []. by rewrite app_nil_r. Qed.

Lemma quiet_emit e W : isPaint e = false → quiet W (emit e W).
Proof. intros He. exists [e]. split; [done|]. by constructor. Qed.

Lemma quiet_foldl {A} (f : World → A → World) l W :
  (∀ W a, quiet W (f W a)) → quiet W (foldl f W l).
Proof.
  intros Hf. revert W. induction l as [|a l IH]; intros W; cbn; [apply quiet_refl|].
  eapply quiet_trans; [apply Hf | apply IH].
Qed.

Lemma quiet_iter (f : World → World) k W :
  (∀ W, quiet W (f W)) → quiet W (Nat.iter k f W).
Proof.
  intros Hf. induction k as [|k IH]; [apply quiet_refl|].
  rewrite Nat.iter_succ. eapply quiet_trans; [apply IH | apply Hf].
Qed.

Section Quiet.

Context `{Collaborators}.

Lemma quiet_removeStep W : quiet W (removeStep W).
Proof.
  unfold removeStep. destruct (last (_paneWidgets (chart W))); [|apply quiet_refl].
  cbn. destruct (last (_paneSeparators (chart W))); unfold quiet; cbn.
  - eexists [_; _]. split; [by rewrite <- app_assoc | by repeat constructor].
  - eexists [_]. split; [done | by repeat constructor].
Qed.

Lemma quiet_createStep W i : quiet W (createStep i W).
Proof.
  unfold createStep. destruct (_ !! i); [|apply quiet_refl].
  destruct (1 <? i)%nat; unfold quiet; cbn.
  - eexists [_; _]. split; [by rewrite <- app_assoc | by repeat constructor].
  - eexists [_]. split; [done | by repeat constructor].
Qed.

Lemma quiet_syncStep W i : quiet W (syncStep W i).
Proof.
  unfold syncStep. destruct (_ !! i); [|apply quiet_refl].
  case_decide; [by apply quiet_trace | by apply quiet_emit].
Qed.

Lemma layoutLoop_quiet o modelPanes n paneWidth priceAxisWidth totalPaneHeight
    stretchPixels paneIndex acc todo :
  Forall (λ e, isPaint e = false)
    (snd (layoutLoop o modelPanes n paneWidth priceAxisWidth totalPaneHeight
            stretchPixels paneIndex acc todo)).
Proof.
  revert paneIndex acc. induction todo as [|pw rest IH]; intros paneIndex acc; cbn.
  - constructor.
  - apply Forall_app. split; [|apply IH].
    destruct (priceScaleShown o); cbn; destruct (modelPanes !! paneIndex);
      by repeat constructor.
Qed.

Lemma quiet_adjustSizeImpl W : quiet W (_adjustSizeImpl W).
Proof.
  unfold _adjustSizeImpl, quiet.
  case_decide; cbn; eexists; (split; [reflexivity|]);
    repeat (apply Forall_app; split); try apply layoutLoop_quiet; by repeat constructor.
Qed.

Lemma quiet_syncGuiWithModel W : quiet W (_syncGuiWithModel W).
Proof.
  unfold _syncGuiWithModel.
  eapply quiet_trans; [|apply quiet_adjustSizeImpl].
  eapply quiet_trans; [|by apply quiet_emit].
  eapply quiet_trans; [|apply quiet_foldl, quiet_syncStep].
  eapply quiet_trans; [|apply (quiet_foldl (λ W i, createStep i W)); intros; apply quiet_createStep].
  apply quiet_iter, quiet_removeStep.
Qed.

Lemma invalidateHandler_gui m W :
  trace (_invalidateHandler m W) = trace W ∧ gui (_invalidateHandler m W) = gui W ∧
  _element (chart (_invalidateHandler m W)) = _element (chart W) ∧
  _height (chart (_invalidateHandler m W)) = _height (chart W) ∧
  _width (chart (_invalidateHandler m W)) = _width (chart W) ∧
  _options (chart (_invalidateHandler m W)) = _options (chart W) ∧
  _priceAxisWidth (chart (_invalidateHandler m W)) = _priceAxisWidth (chart W).
Proof.
  destruct (_drawPlanned (chart W)) eqn:Hp.
  - by rewrite invalidateHandler_planned.
  - by rewrite invalidateHandler_idle.
Qed.

Lemma quiet_invalidateHandler m W : quiet W (_invalidateHandler m W).
Proof. apply quiet_trace, invalidateHandler_gui. Qed.

End Quiet.

(** ** Pane widgets and separators follow the panes of the model *)

Lemma separatorsFor_small n : (n ≤ 2)%nat → separatorsFor n = [].
Proof. intros Hn. unfold separatorsFor. by replace (n - 2)%nat with 0%nat by lia. Qed.

Lemma separatorsFor_S n :
  separatorsFor (S n)
  = separatorsFor n ++ (if (1 <? n)%nat then [mkPaneSeparator (n - 1) n] else []).
Proof.
  destruct (1 <? n)%nat eqn:Hn.
  - apply Nat.ltb_lt in Hn. unfold separatorsFor.
    replace (S n - 2)%nat with (S (n - 2)) by lia.
    rewrite seq_S, map_app. replace (2 + (n - 2))%nat with n by lia. done.
  - apply Nat.ltb_ge in Hn. rewrite !separatorsFor_small by lia. done.
Qed.

Lemma length_separatorsFor n : length (separatorsFor n) = (n - 2)%nat.
Proof. unfold separatorsFor. by rewrite length_map, length_seq. Qed.

Lemma synced_gui W W' : gui W = gui W' → synced W → synced W'.
Proof. unfold gui, synced. intros [= -> -> ->]. done. Qed.

Section Separators.

Context `{Collaborators}.

Lemma separated_removeStep W : separated W → separated (removeStep W).
Proof.
  unfold separated, removeStep. intros HS.
  destruct (last (_paneWidgets (chart W))) as [pw|] eqn:Hl; [|done].
  apply last_Some in Hl as [l' Hl']. cbn.
  rewrite Hl', length_app, Nat.add_1_r, separatorsFor_S in HS.
  destruct (last (_paneSeparators (chart W))) as [sep|] eqn:Hs; cbn;
    rewrite Hl', removelast_last.
  - destruct (1 <? length l')%nat eqn:Hn.
    + by rewrite HS, removelast_last.
    + apply Nat.ltb_ge in Hn. rewrite app_nil_r, separatorsFor_small in HS by lia.
      by rewrite HS in Hs.
  - apply last_None in Hs. rewrite Hs in *.
    destruct (1 <? length l')%nat; [|by rewrite app_nil_r in HS].
    by destruct (separatorsFor (length l')).
Qed.

Lemma separated_createStep W :
  separated W → separated (createStep (length (_paneWidgets (chart W))) W).
Proof.
  unfold separated, createStep. intros HS.
  destruct (panes (_model (chart W)) !! _); [|done].
  destruct (1 <? _)%nat eqn:Hn; cbn;
    rewrite length_app, Nat.add_1_r, separatorsFor_S, Hn, HS; [done|].
  by rewrite app_nil_r.
Qed.

Lemma separated_createLoop k W :
  separated W →
  separated (foldl (λ W i, createStep i W) W (seq (length (_paneWidgets (chart W))) k)).
Proof.
  revert W. induction k as [|k IH]; intros W HS; cbn; [done|].
  set (a := length (_paneWidgets (chart W))).
  destruct (decide (a < length (panes (_model (chart W))))%nat) as [Hlt | Hge].
  - replace (S a) with (length (_paneWidgets (chart (createStep a W))))
      by (by rewrite createStep_length).
    by apply IH, separated_createStep.
  - assert (∀ l, foldl (λ W i, createStep i W) W l = W ∨ ∃ i, i ∈ l ∧ (i < a)%nat) as Hid.
    { clear IH. induction l as [|i l IHl]; [by left|]. cbn.
      destruct (decide (i < a)%nat) as [Hi | Hi].
      - right. exists i. split; [apply list_elem_of_here | done].
      - assert (createStep i W = W) as ->.
        { unfold createStep. by rewrite lookup_ge_None_2 by lia. }
        destruct IHl as [? | (j & ? & ?)]; [by left|].
        right. exists j. split; [by apply list_elem_of_further | done]. }
    destruct (Hid (a :: seq (S a) k)) as [Heq | (i & Hi & Hlt)].
    + cbn in Heq. by rewrite Heq.
    + change (a :: seq (S a) k) with (seq a (S k)) in Hi.
      apply elem_of_seq in Hi. lia.
Qed.

Lemma separated_syncStep W i : separated W → separated (syncStep W i).
Proof.
  unfold separated, syncStep. intros HS. destruct (_ !! i); [|done].
  case_decide; cbn; [by rewrite length_insert | done].
Qed.

Lemma separated_adjustSizeImpl W : separated W → separated (_adjustSizeImpl W).
Proof.
  unfold separated. intros HS.
  change (_paneWidgets (chart (_adjustSizeImpl W))) with (laidOut W).
  rewrite adjustSizeImpl_paneWidgets, layoutLoop_length.
  unfold _adjustSizeImpl. by case_decide.
Qed.

Lemma separated_syncGuiWithModel W : separated W → separated (_syncGuiWithModel W).
Proof.
  intros HS. unfold _syncGuiWithModel. apply separated_adjustSizeImpl.
  unfold _updateTimeAxisVisibility.
  assert (∀ l W, separated W → separated (foldl syncStep W l)) as Hsync.
  { induction l as [|i l IH]; intros W0 H0; cbn; [done|].
    by apply IH, separated_syncStep. }
  change (separated (foldl syncStep
            (foldl (λ W i, createStep i W)
               (Nat.iter (length (_paneWidgets (chart W)) - length (panes (_model (chart W))))
                  removeStep W)
               (seq (length (_paneWidgets (chart W)))
                  (length (panes (_model (chart W))) - length (_paneWidgets (chart W)))))
            (seq 0 (length (panes (_model (chart W))))))).
  apply Hsync.
  set (a := length (_paneWidgets (chart W))).
  set (t := length (panes (_model (chart W)))).
  assert (separated (Nat.iter (a - t) removeStep W)) as HR.
  { generalize (a - t)%nat. intros k. induction k as [|k IH]; [done|].
    rewrite Nat.iter_succ. by apply separated_removeStep. }
  destruct (decide (a ≤ t)%nat) as [Hle | Hgt].
  - replace (a - t)%nat with 0%nat in * by lia. cbn in *.
    by apply separated_createLoop.
  - by replace (t - a)%nat with 0%nat by lia.
Qed.

Lemma synced_syncGuiWithModel W : separated W → synced (_syncGuiWithModel W).
Proof.
  intros HS. destruct (syncGuiWithModel_synced W) as [Hlen Hall].
  assert (_model (chart (_syncGuiWithModel W)) = _model (chart W)) as HM
    by apply control_model, control_syncGuiWithModel.
  unfold synced. rewrite HM. split; [done|]. split; [|done].
  rewrite <- Hlen. by apply separated_syncGuiWithModel.
Qed.

Lemma synced_separated W : synced W → separated W.
Proof. intros (Hlen & Hseps & _). unfold separated. by rewrite Hlen. Qed.

Lemma synced_adjustSizeImpl W : synced W → synced (_adjustSizeImpl W).
Proof.
  intros HW. pose proof (synced_separated W HW) as HS.
  apply separated_adjustSizeImpl in HS. destruct HW as (Hlen & Hseps & _).
  assert (_model (chart (_adjustSizeImpl W)) = _model (chart W)) as HM
    by apply control_model, control_adjustSizeImpl.
  unfold synced, separated in *. rewrite HM.
  change (_paneWidgets (chart (_adjustSizeImpl W))) with (laidOut W) in *.
  rewrite adjustSizeImpl_paneWidgets in *. rewrite layoutLoop_length in *.
  split; [done|]. split; [by rewrite HS, Hlen|].
  intros i pw Hi. apply layoutLoop_each in Hi as (x & Hsize & Hx & Hstate).
  unfold paneHeight. rewrite Hsize. by eauto.
Qed.

End Separators.

Lemma setStateLoop_separators l W :
  _paneSeparators (chart (foldl setStateStep W l)) = _paneSeparators (chart W).
Proof.
  revert W. induction l as [|i l IH]; intros W; cbn; [done|].
  rewrite IH. unfold setStateStep. by destruct (_ !! i).
Qed.

Section LiveChart.

Context `{Collaborators}.

Lemma synced_invalidateHandler m W : synced W → synced (_invalidateHandler m W).
Proof. apply synced_gui. symmetry. apply invalidateHandler_gui. Qed.

Lemma synced_drawImpl m W : synced W → synced (_drawImpl m W).
Proof.
  intros HW.
  assert (_model (chart (_drawImpl m W)) = _model (chart W)) as HM
    by apply control_model, control_drawImpl.
  destruct (Mask.fullInvalidation m) eqn:Hl.
  - destruct (drawImpl_None m W Hl) as [Hc _]. revert HW. apply synced_gui.
    unfold gui. by rewrite Hc.
  - destruct (drawImpl_Light m W Hl) as [Hc _]. revert HW. apply synced_gui.
    unfold gui. by rewrite Hc.
  - destruct (drawImpl_Full m W Hl) as (Hlen & Hall & _).
    unfold synced. rewrite HM. split; [done|]. split; [|done].
    assert (_paneSeparators (chart (_drawImpl m W))
            = _paneSeparators (chart (_syncGuiWithModel W))) as ->.
    { unfold _drawImpl. rewrite Hl, paint_chart, setStateLoop_separators. cbn.
      rewrite autoScaleLoop_chart. unfold _updateGui.
      by destruct (Mask.getFitContent m). }
    destruct (synced_syncGuiWithModel W (synced_separated W HW)) as (_ & Hseps & _).
    rewrite Hseps. do 3 f_equal. apply control_model, control_syncGuiWithModel.
Qed.

Lemma drawCallback_static W :
  _element (chart (drawCallback W)) = _element (chart W) ∧
  _model (chart (drawCallback W)) = _model (chart W).
Proof.
  unfold drawCallback. cbn.
  destruct (_invalidateMask (chart W)) as [m|]; cbn; [|done].
  match goal with |- context [_drawImpl m ?W1] =>
    pose proof (control_drawImpl m W1) as HC end.
  pose proof (control_model _ _ HC) as HM.
  apply control_fields in HC as (_ & _ & _ & _ & He & _).
  by rewrite He, HM.
Qed.

Lemma synced_drawCallback W : synced W → synced (drawCallback W).
Proof.
  intros HW. unfold drawCallback. cbn.
  destruct (_invalidateMask (chart W)) as [m|]; cbn; [|done].
  match goal with |- synced (with_chart _ (_drawImpl m ?W1)) =>
    assert (synced (_drawImpl m W1)) as HD by (by apply synced_drawImpl) end.
  revert HD. by apply synced_gui.
Qed.

Lemma runFrame_static W :
  _element (chart (runFrame W)) = _element (chart W) ∧
  _model (chart (runFrame W)) = _model (chart W).
Proof.
  unfold runFrame. generalize (raf_pending (window W)). intros due.
  match goal with |- context [foldl _ ?W1 due] =>
    change (_element (chart W)) with (_element (chart W1));
    change (_model (chart W)) with (_model (chart W1)); generalize W1 end.
  induction due as [|id due IH]; intros W1; cbn; [done|].
  destruct (IH (drawCallback W1)) as [-> ->]. apply drawCallback_static.
Qed.

Lemma synced_runFrame W : synced W → synced (runFrame W).
Proof.
  intros HW. unfold runFrame. generalize (raf_pending (window W)). intros due.
  match goal with |- synced (foldl _ ?W1 due) =>
    assert (synced W1) as HW1 by done; revert HW1; generalize W1 end.
  induction due as [|id due IH]; intros W1 HW1; cbn; [done|].
  by apply IH, synced_drawCallback.
Qed.

Lemma resize_static height width forceRepaint W :
  _element (chart (worldOf (resize height width forceRepaint W))) = _element (chart W) ∧
  _model (chart (worldOf (resize height width forceRepaint W))) = _model (chart W).
Proof.
  unfold resize. destruct (_ && _); [done|]. cbn.
  destruct (_element (chart W)) eqn:He; [|done].
  destruct forceRepaint; cbn.
  - match goal with |- context [_drawImpl ?m ?W1] =>
      pose proof (control_drawImpl m W1) as HC end.
    pose proof (control_model _ _ HC) as HM.
    apply control_fields in HC as (_ & _ & _ & _ & He' & _).
    by rewrite He', HM.
  - unfold fullUpdate.
    match goal with |- context [_invalidateHandler ?m ?W1] =>
      destruct (invalidateHandler_gui m W1) as (_ & Hg & He' & _) end.
    rewrite He'. unfold gui in Hg. injection Hg as _ _ ->. done.
Qed.

Lemma synced_resize height width forceRepaint W :
  synced W → synced (worldOf (resize height width forceRepaint W)).
Proof.
  intros HW. unfold resize. destruct (_ && _); [done|]. cbn.
  destruct (_element (chart W)); [|done].
  destruct forceRepaint; cbn.
  - by apply synced_drawImpl.
  - by apply synced_invalidateHandler.
Qed.

Lemma adjustSize_static W :
  _element (chart (adjustSize W)) = _element (chart W) ∧
  _model (chart (adjustSize W)) = _model (chart W).
Proof.
  unfold adjustSize, fullUpdate.
  destruct (invalidateHandler_gui (Mask.new InvalidationLevel.Full) (_adjustSizeImpl W))
    as (_ & Hg & -> & _).
  unfold gui in Hg. injection Hg as _ _ ->.
  pose proof (control_adjustSizeImpl W) as HC.
  pose proof (control_model _ _ HC) as HM.
  apply control_fields in HC as (_ & _ & _ & _ & He & _). done.
Qed.

Lemma synced_adjustSize W : synced W → synced (adjustSize W).
Proof. intros HW. by apply synced_invalidateHandler, synced_adjustSizeImpl. Qed.

Lemma step_element W e :
  _element (chart (step W e)) = true → _element (chart W) = true.
Proof.
  destruct e; cbn.
  - by destruct (invalidateHandler_gui invalidateMask W) as (_ & _ & -> & _).
  - by destruct (runFrame_static W) as [-> _].
  - by destruct (resize_static height width forceRepaint W) as [-> _].
  - by destruct (adjustSize_static W) as [-> _].
  - destruct (_element (chart W)) eqn:He; [done|].
    unfold destroy. rewrite He. cbn. congruence.
Qed.

Lemma construct_resized containerWidth containerHeight options modelPanes win :
  construct containerWidth containerHeight options modelPanes win
  = _updateTimeAxisVisibility
      (_syncGuiWithModel
         {| chart :=
              mkChartWidget options [] [] (mkChartModel modelPanes) (raf_next win)
                (initialHeight containerHeight options) (initialWidth containerWidth options)
                0 true (Some (Mask.new InvalidationLevel.Full)) true;
            window := snd (requestAnimationFrame win);
            trace := [ElementStyleSize (initialHeight containerHeight options)
                        (initialWidth containerWidth options)] |}).
Proof.
  unfold construct, initialHeight, initialWidth.
  set (h := Z.max 50 _). set (w := Z.max 70 _).
  assert (50 ≤ h) as Hh by lia. clearbody h w.
  unfold resize. cbn [chart _height _width].
  assert ((0 =? h) = false) as -> by (apply Z.eqb_neq; lia).
  cbn. unfold fullUpdate. by rewrite invalidateHandler_idle.
Qed.

End LiveChart.





(** ** Invalidations, frames and destruction *)

Lemma runFrame_nothing_due `{Collaborators} (W : World) :
  raf_pending (window W) = [] → runFrame W = W.
Proof.
  intros Hq. unfold runFrame. rewrite Hq. cbn.
  destruct W as [c [next pending] t]. cbn in *. by subst.
Qed.

Section Lifecycle.

Context `{Collaborators}.

Lemma raise_planned ms W :
  _drawPlanned (chart W) = true →
  window (raise ms W) = window W ∧ trace (raise ms W) = trace W ∧
  _drawPlanned (chart (raise ms W)) = true ∧
  _drawRafId (chart (raise ms W)) = _drawRafId (chart W).
Proof.
  revert W. induction ms as [|m ms IH]; intros W Hp; [done|].
  unfold raise in *. cbn [foldl].
  destruct (IH (_invalidateHandler m W)) as (-> & -> & -> & ->);
    by rewrite invalidateHandler_planned.
Qed.

(** X13. However many invalidations reach an idle controller before the next
    animation frame, they request one frame between them and draw nothing;
    the frame then draws once, with the masks merged in the order in which
    they arrived, and a second frame finds nothing to do. *)
Theorem invalidations_coalesce (W : World) (m : InvalidateMask) (ms : list InvalidateMask) :
  reachable W →
  controllerState W = Idle →
  trace (raise (m :: ms) W) = trace W ∧
  raf_next (window (raise (m :: ms) W)) = raf_next (window W) + 1 ∧
  raf_pending (window (raise (m :: ms) W)) = [raf_next (window W)] ∧
  runFrame (raise (m :: ms) W)
  = with_chart (set_invalidateMask None)
      (_drawImpl (foldl Mask.merge m ms) (callbackStart (raise (m :: ms) W))) ∧
  runFrame (runFrame (raise (m :: ms) W)) = runFrame (raise (m :: ms) W).
Proof.
  intros HW Hidle. apply reachable_scheduled_ok in HW.
  assert (_drawPlanned (chart W) = false) as Hp
    by (unfold controllerState in Hidle; by destruct (_drawPlanned (chart W))).
  destruct (ok_idle W HW Hp) as (Hr & Hq & Hm).
  pose proof (raise_mask (m :: ms) W) as Hmask. rewrite Hm in Hmask.
  change (raise (m :: ms) W) with (raise ms (_invalidateHandler m W)) in *.
  assert (window (_invalidateHandler m W)
          = {| raf_next := raf_next (window W) + 1; raf_pending := [raf_next (window W)] |} ∧
          trace (_invalidateHandler m W) = trace W ∧
          _drawPlanned (chart (_invalidateHandler m W)) = true ∧
          _drawRafId (chart (_invalidateHandler m W)) = raf_next (window W))
    as (Hw0 & Ht0 & Hp0 & Hr0).
  { rewrite invalidateHandler_idle by done. cbn. by rewrite Hq. }
  destruct (raise_planned ms (_invalidateHandler m W) Hp0) as (Hw & Ht & Hp' & Hr').
  rewrite Hw0 in Hw. rewrite Ht0 in Ht. rewrite Hr0 in Hr'.
  split; [done|]. split; [by rewrite Hw|]. split; [by rewrite Hw|].
  split.
  - apply runFrame_one; [by rewrite Hw, Hr' | done].
  - apply runFrame_nothing_due. by rewrite window_runFrame.
Qed.

(** X14. [destroy] on a chart that is not destroyed removes the wheel
    listener, unsubscribes from the model and destroys it, destroys every
    pane widget and then every separator in their order, then the time axis
    widget, detaches the element and destroys the delegates; it leaves no
    pane widget and no separator, keeps the stored dimensions, the pending
    mask and the planned flag, and a second [destroy] throws without
    changing anything. *)
Theorem destroy_releases_everything (W : World) :
  _element (chart W) = true →
  ∃ W',
    destroy W = Returned W' ∧
    trace W'
    = trace W ++ [RemoveWheelListener; UnsubscribeModelEvents; ModelDestroy]
      ++ map PaneWidgetDestroy (_paneWidgets (chart W))
      ++ map SeparatorDestroy (_paneSeparators (chart W))
      ++ [TimeAxisWidgetDestroy; ElementDetach; DelegatesDestroy] ∧
    _paneWidgets (chart W') = [] ∧ _paneSeparators (chart W') = [] ∧
    _element (chart W') = false ∧
    _height (chart W') = _height (chart W) ∧ _width (chart W') = _width (chart W) ∧
    _invalidateMask (chart W') = _invalidateMask (chart W) ∧
    _drawPlanned (chart W') = _drawPlanned (chart W) ∧
    destroy W' = Threw W'.
Proof.
  intros He. unfold destroy at 1. rewrite He. eexists. split; [reflexivity|].
  set (W1 := if decide (_drawRafId (chart (emit RemoveWheelListener W)) ≠ 0) then _ else _).
  assert (chart W1 = chart W ∧ trace W1 = trace W ++ [RemoveWheelListener]) as [Hc1 Ht1]
    by (subst W1; by case_decide).
  cbn. rewrite !chart_foldl_emit, !trace_foldl_emit. cbn.
  rewrite !chart_foldl_emit, !trace_foldl_emit. cbn.
  rewrite Hc1, Ht1. split_and!; try done.
  by rewrite <- !app_assoc.
Qed.

(** X15. A chart that is destroyed while a paint is scheduled never paints
    and never requests an animation frame again, whatever happens to it
    afterwards: the planned flag stays set, so every later invalidation only
    merges into the pending mask. *)
Theorem destroyed_while_scheduled_stays_silent (W : World) (es : list Event) :
  reachable W →
  _element (chart W) = true →
  _drawPlanned (chart W) = true →
  window (foldl step (worldOf (destroy W)) es) = window (worldOf (destroy W)) ∧
  raf_pending (window (foldl step (worldOf (destroy W)) es)) = [] ∧
  quiet (worldOf (destroy W)) (foldl step (worldOf (destroy W)) es) ∧
  _element (chart (foldl step (worldOf (destroy W)) es)) = false.
Proof.
  intros HW He Hp. apply reachable_scheduled_ok in HW.
  destruct (destroy_fields W He) as (Hw & Hp' & _ & _ & _ & _ & He').
  set (D := worldOf (destroy W)) in *.
  assert (raf_pending (window D) = []) as Hq.
  { rewrite Hw. destruct (ok_pending W HW) as [Hq | (_ & Hq & Hlt)].
    - case_decide; cbn; by rewrite Hq.
    - rewrite decide_True by lia. cbn. rewrite Hq. cbn.
      by rewrite decide_False by (intros Hne; by apply Hne). }
  rewrite Hp in Hp'. clearbody D. clear W HW He Hp Hw.
  assert (∀ X e,
            _element (chart X) = false → _drawPlanned (chart X) = true →
            raf_pending (window X) = [] →
            window (step X e) = window X ∧ quiet X (step X e) ∧
            _element (chart (step X e)) = false ∧ _drawPlanned (chart (step X e)) = true)
    as Hstep.
  { intros X e HeX HpX HqX. destruct e as [m | | height width forceRepaint | |]; cbn.
    - rewrite invalidateHandler_planned by done. cbn.
      split_and!; try done. by apply quiet_trace.
    - rewrite runFrame_nothing_due by done. split_and!; try done. apply quiet_refl.
    - unfold resize. destruct (_ && _); cbn; [by split_and!; try apply quiet_refl|].
      rewrite HeX. cbn. split_and!; try done. by apply quiet_trace.
    - unfold adjustSize, fullUpdate.
      pose proof (control_fields _ _ (control_adjustSizeImpl X))
        as (Hw & Hp & _ & _ & He & _).
      rewrite invalidateHandler_planned by (by rewrite Hp). cbn.
      rewrite Hw, Hp, He. split_and!; try done.
      eapply quiet_trans; [apply quiet_adjustSizeImpl | by apply quiet_trace].
    - unfold destroy. rewrite HeX. cbn. split_and!; try done. apply quiet_refl. }
  revert D Hp' He' Hq. induction es as [|e es IH]; intros D HpD HeD HqD.
  - cbn. split_and!; try done. apply quiet_refl.
  - cbn [foldl]. destruct (Hstep D e HeD HpD HqD) as (Hw1 & Hq1 & He1 & Hp1).
    destruct (IH (step D e)) as (Hw2 & Hq2 & Hquiet & He2); [done | done | by rewrite Hw1 |].
    split_and!; try done.
    + by rewrite Hw2.
    + by eapply quiet_trans.
Qed.

(** X16. [resize] of a destroyed chart with dimensions other than the stored
    ones throws, but only after it has stored them: it sets no style and
    raises no invalidation, and the same [resize] called again returns
    without doing anything. *)
Theorem resize_after_destroy (W : World) (height width : Z) (forceRepaint again : bool) :
  _element (chart W) = false →
  ¬ (_height (chart W) = height ∧ _width (chart W) = width) →
  ∃ W',
    resize height width forceRepaint W = Threw W' ∧
    _height (chart W') = height ∧ _width (chart W') = width ∧
    trace W' = trace W ∧ window W' = window W ∧
    _invalidateMask (chart W') = _invalidateMask (chart W) ∧
    resize height width again W' = Returned W'.
Proof.
  intros He Hne. unfold resize at 1.
  destruct (_ && _) eqn:Hsame.
  { apply andb_true_iff in Hsame as [?%Z.eqb_eq ?%Z.eqb_eq]. by destruct Hne. }
  cbn. rewrite He. eexists. split; [reflexivity|]. cbn.
  split_and!; try done. unfold resize. cbn. by rewrite !Z.eqb_refl.
Qed.

End Lifecycle.

(** One frame after the construction the controller is idle; two
    invalidations then leave the trace as it is and request one frame. *)
Lemma invalidations_coalesce_witness :
  trace (raise [lightFitContentMask; lightAutoscaleMask]
           (step (H := demoCollaborators) demoWorld Frame))
  = trace (step (H := demoCollaborators) demoWorld Frame).
Proof.
  apply (invalidations_coalesce (H := demoCollaborators)
           (step (H := demoCollaborators) demoWorld Frame)
           lightFitContentMask [lightAutoscaleMask]).
  - apply reachable_step. by apply (reachable_construct (H := demoCollaborators)).
  - vm_compute. reflexivity.
Defined.

(** Destroying the chart just constructed leaves no pane widget. *)
Lemma destroy_releases_everything_witness :
  ∃ W', destroy demoWorld = Returned W' ∧ _paneWidgets (chart W') = [].
Proof.
  destruct (destroy_releases_everything demoWorld eq_refl) as (W' & HW' & _ & Hpw & _).
  exists W'. exact (conj HW' Hpw).
Defined.

(** The chart just constructed has a paint scheduled; destroyed, it requests
    no frame when it is invalidated, adjusted and given two frames. *)
Lemma destroyed_while_scheduled_stays_silent_witness :
  raf_pending
    (window (foldl (step (H := demoCollaborators)) (worldOf (destroy demoWorld))
               [Invalidate fullFitContentMask; AdjustSize; Frame; Frame]))
  = [].
Proof.
  apply (destroyed_while_scheduled_stays_silent (H := demoCollaborators) demoWorld
           [Invalidate fullFitContentMask; AdjustSize; Frame; Frame]).
  - by apply (reachable_construct (H := demoCollaborators)).
  - reflexivity.
  - reflexivity.
Defined.

(** The destroyed chart throws on a resize to 10 by 10 and has stored the
    dimensions all the same. *)
Lemma resize_after_destroy_witness :
  ∃ W',
    resize (H := demoCollaborators) 10 10 false (worldOf (destroy demoWorld)) = Threw W' ∧
    _height (chart W') = 10.
Proof.
  destruct (resize_after_destroy (H := demoCollaborators) (worldOf (destroy demoWorld))
              10 10 false false eq_refl) as (W' & HW' & Hh & _).
  - intros [Hh _]. vm_compute in Hh. discriminate Hh.
  - exists W'. exact (conj HW' Hh).
Defined.

(** ** The widths of a layout *)

Section Widths.

Context `{Collaborators}.

Lemma priceAxisWidth_foldl (o : ChartOptions) (paneWidgets : list PaneWidget) (acc : Z) :
  let r := foldl (λ priceAxisWidth paneWidget,
                    if priceScaleShown o
                    then Z.max priceAxisWidth (optimalWidth paneWidget)
                    else priceAxisWidth) acc paneWidgets in
  (priceScaleShown o = false → r = acc) ∧
  (priceScaleShown o = true →
   acc ≤ r ∧
   (∀ pw, pw ∈ paneWidgets → optimalWidth pw ≤ r) ∧
   (r = acc ∨ ∃ pw, pw ∈ paneWidgets ∧ r = optimalWidth pw)).
Proof.
  revert acc. induction paneWidgets as [|pw l IH]; intros acc; cbn.
  - split; [done|]. intros _. split; [lia|]. split; [|by left].
    by intros pw ?%elem_of_nil.
  - destruct (IH (if priceScaleShown o then Z.max acc (optimalWidth pw) else acc))
      as [Hhidden Hshown].
    split; intros Ho; rewrite Ho in *; [by apply Hhidden|].
    destruct (Hshown eq_refl) as (Hle & Hall & Hex).
    split; [lia|]. split.
    + intros pw' [-> | Hin]%elem_of_cons; [lia | by apply Hall].
    + destruct Hex as [Hr | (pw' & Hin & Hr)].
      * destruct (Z.max_spec acc (optimalWidth pw)) as [[_ Hm] | [_ Hm]];
          [right | left; by rewrite Hr].
        exists pw. split; [apply list_elem_of_here | by rewrite Hr].
      * right. exists pw'. split; [by apply list_elem_of_further | done].
Qed.

Lemma layoutLoop_widths o modelPanes n paneWidth priceAxisWidth totalPaneHeight
    stretchPixels paneIndex acc todo j paneWidget' :
  fst (layoutLoop o modelPanes n paneWidth priceAxisWidth totalPaneHeight
         stretchPixels paneIndex acc todo) !! j = Some paneWidget' →
  (∃ x, pw_size paneWidget' = Some (mkSize paneWidth x)) ∧
  (priceScaleShown o = true → pw_priceAxisSize paneWidget' = Some priceAxisWidth) ∧
  (priceScaleShown o = false →
   ∃ paneWidget, todo !! j = Some paneWidget ∧
                 pw_priceAxisSize paneWidget' = pw_priceAxisSize paneWidget).
Proof.
  revert paneIndex acc j.
  induction todo as [|pw rest IH]; intros paneIndex acc j; [done|].
  destruct j as [|j]; cbn.
  - intros [= <-]. destruct (priceScaleShown o); cbn; split_and!; by eauto.
  - intros Hj. by apply IH in Hj.
Qed.

Lemma layoutLoop_calls o modelPanes n paneWidth priceAxisWidth totalPaneHeight
    stretchPixels paneIndex acc todo :
  Forall (λ e, ∃ p h, e = ModelSetPaneHeight p h ∧ 2 ≤ h)
    (snd (layoutLoop o modelPanes n paneWidth priceAxisWidth totalPaneHeight
            stretchPixels paneIndex acc todo)).
Proof.
  revert paneIndex acc. induction todo as [|pw rest IH]; intros paneIndex acc; cbn.
  - constructor.
  - apply Forall_app. split; [|apply IH].
    destruct (priceScaleShown o); cbn; destruct (modelPanes !! paneIndex);
      repeat constructor; eexists _, _; (split; [reflexivity | lia]).
Qed.


End Widths.


(** ** Applying options *)

Lemma orElse_spec (v : option Z) (d : Z) :
  orElse v d = d ∧ (v = None ∨ v = Some 0 ∨ v = Some d) ∨
  v = Some (orElse v d) ∧ orElse v d ≠ 0 ∧ orElse v d ≠ d.
Proof.
  unfold orElse. destruct v as [n|]; [|by left; eauto].
  destruct (n =? 0) eqn:Hn.
  - apply Z.eqb_eq in Hn as ->. left. by eauto.
  - apply Z.eqb_neq in Hn. destruct (decide (n = d)) as [-> | Hd].
    + left. by eauto.
    + by right.
Qed.

Section ApplyingOptions.

Context `{Collaborators}.

Variable modelApplyOptions : PartialChartOptions → World → World.


End ApplyingOptions.


(** ** Pane widgets and separators are destroyed when they are dropped *)

Lemma net_app delta l1 l2 : net delta (l1 ++ l2) = net delta l1 + net delta l2.
Proof. unfold net. induction l1 as [|e l1 IH]; cbn; [done|]. rewrite IH. lia. Qed.

Lemma net_singleton delta e : net delta [e] = delta e.
Proof. unfold net. cbn. lia. Qed.

Lemma net_neutral delta l : Forall (λ e, delta e = 0) l → net delta l = 0.
Proof. unfold net. induction 1 as [|e l He _ IH]; cbn; [done|]. lia. Qed.

(** Calls that create and destroy nothing, on a chart with as many pane
    widgets and separators as before, keep the balance. *)
Lemma balanced_neutral W W' calls :
  trace W' = trace W ++ calls →
  Forall (λ e, widgetDelta e = 0 ∧ separatorDelta e = 0) calls →
  length (_paneWidgets (chart W')) = length (_paneWidgets (chart W)) →
  length (_paneSeparators (chart W')) = length (_paneSeparators (chart W)) →
  balanced W → balanced W'.
Proof.
  unfold balanced. intros -> Hcalls -> -> [Hw Hs].
  rewrite !net_app, Hw, Hs.
  rewrite !net_neutral; [lia | |]; eapply Forall_impl; try exact Hcalls; by intros e [? ?].
Qed.

Lemma balanced_foldl {A} (f : World → A → World) l W :
  (∀ W a, balanced W → balanced (f W a)) → balanced W → balanced (foldl f W l).
Proof.
  intros Hf. revert W. induction l as [|a l IH]; intros W HW; cbn; [done|].
  by apply IH, Hf.
Qed.

Lemma paintCalls_neutral m n :
  Forall (λ e, widgetDelta e = 0 ∧ separatorDelta e = 0) (paintCalls m n).
Proof.
  unfold paintCalls. apply Forall_app. split; [|by repeat constructor].
  apply Forall_map, Forall_forall. by intros.
Qed.

Lemma fitContentCalls_neutral m :
  Forall (λ e, widgetDelta e = 0 ∧ separatorDelta e = 0) (fitContentCalls m).
Proof. unfold fitContentCalls. destruct (Mask.getFitContent m); by repeat constructor. Qed.

Lemma autoScaleCalls_neutral m n :
  Forall (λ e, widgetDelta e = 0 ∧ separatorDelta e = 0) (autoScaleCalls m n).
Proof.
  unfold autoScaleCalls. generalize (seq 0 n). intros l.
  induction l as [|i l IH]; cbn; [constructor|].
  apply Forall_app. split; [|done]. destruct (autoScale _); by repeat constructor.
Qed.

Section Balance.

Context `{Collaborators}.

Lemma balanced_removeStep W : balanced W → balanced (removeStep W).
Proof.
  unfold balanced, removeStep. intros [Hw Hs].
  destruct (last (_paneWidgets (chart W))) as [pw|] eqn:Hl; [|done].
  apply last_Some in Hl as [l' Hl']. cbn.
  destruct (last (_paneSeparators (chart W))) as [sep|] eqn:Hl2; cbn.
  - apply last_Some in Hl2 as [s' Hs'].
    rewrite !net_app, Hw, Hs, Hl', Hs', !removelast_last, !length_app. unfold net. cbn. lia.
  - rewrite !net_app, Hw, Hs, Hl', !removelast_last, !length_app. unfold net. cbn. lia.
Qed.

Lemma balanced_createStep i W : balanced W → balanced (createStep i W).
Proof.
  unfold balanced, createStep. intros [Hw Hs].
  destruct (panes (_model (chart W)) !! i); [|done].
  destruct (1 <? i)%nat; cbn; rewrite !net_app, Hw, Hs, !length_app; unfold net; cbn; lia.
Qed.

Lemma balanced_syncStep W i : balanced W → balanced (syncStep W i).
Proof.
  unfold balanced, syncStep. intros [Hw Hs]. destruct (_ !! i); [|done].
  case_decide; cbn; [by rewrite length_insert|].
  rewrite !net_app, Hw, Hs. unfold net. cbn. lia.
Qed.

Lemma balanced_adjustSizeImpl W : balanced W → balanced (_adjustSizeImpl W).
Proof.
  assert (length (_paneWidgets (chart (_adjustSizeImpl W))) = length (_paneWidgets (chart W)))
    as Hlen.
  { change (_paneWidgets (chart (_adjustSizeImpl W))) with (laidOut W).
    by rewrite adjustSizeImpl_paneWidgets, layoutLoop_length. }
  assert (∀ o modelPanes n paneWidth priceAxisWidth totalPaneHeight stretchPixels
            paneIndex acc todo,
            Forall (λ e, widgetDelta e = 0 ∧ separatorDelta e = 0)
              (snd (layoutLoop o modelPanes n paneWidth priceAxisWidth totalPaneHeight
                      stretchPixels paneIndex acc todo))) as Hloop.
  { intros. eapply Forall_impl; [apply layoutLoop_calls|].
    by intros e (p & h0 & -> & _). }
  revert Hlen. unfold _adjustSizeImpl. case_decide; cbn; intros Hlen.
  - intros HW. eapply (balanced_neutral W); [reflexivity | | done | done | done].
    repeat (apply Forall_app; split); try apply Hloop; by repeat constructor.
  - intros HW. eapply (balanced_neutral W); [reflexivity | | done | done | done].
    repeat (apply Forall_app; split); try apply Hloop; by repeat constructor.
Qed.

Lemma balanced_syncGuiWithModel W : balanced W → balanced (_syncGuiWithModel W).
Proof.
  intros HW. unfold _syncGuiWithModel. apply balanced_adjustSizeImpl.
  unfold _updateTimeAxisVisibility.
  match goal with |- balanced (emit ?e ?W1) =>
    eapply (balanced_neutral W1 _ [e]);
      [reflexivity | by repeat constructor | done | done |] end.
  apply balanced_foldl; [apply balanced_syncStep|].
  apply balanced_foldl; [intros; by apply balanced_createStep|].
  generalize (length (_paneWidgets (chart W)) - length (panes (_model (chart W))))%nat.
  intros k. induction k as [|k IH]; [done|].
  rewrite Nat.iter_succ. by apply balanced_removeStep.
Qed.

Lemma drawImpl_separators m W :
  _paneSeparators (chart (_drawImpl m W))
  = match Mask.fullInvalidation m with
    | InvalidationLevel.Full => _paneSeparators (chart (_syncGuiWithModel W))
    | _ => _paneSeparators (chart W)
    end.
Proof.
  unfold _drawImpl. rewrite paint_chart.
  destruct (Mask.fullInvalidation m); [done | by destruct (Mask.getFitContent m) |].
  rewrite setStateLoop_separators. cbn. rewrite autoScaleLoop_chart. unfold _updateGui.
  by destruct (Mask.getFitContent m).
Qed.

Lemma balanced_drawImpl m W : balanced W → balanced (_drawImpl m W).
Proof.
  intros HW. pose proof (drawImpl_separators m W) as Hseps.
  destruct (Mask.fullInvalidation m) eqn:Hl.
  - destruct (drawImpl_None m W Hl) as [Hc Ht].
    apply (balanced_neutral W _ _ Ht); [apply paintCalls_neutral | by rewrite Hc.. | done].
  - destruct (drawImpl_Light m W Hl) as [Hc Ht].
    apply (balanced_neutral W _ _ Ht); [| by rewrite Hc.. | done].
    apply Forall_app. split; [apply fitContentCalls_neutral|].
    constructor; [done | apply paintCalls_neutral].
  - destruct (drawImpl_Full m W Hl) as (Hlen & _ & Ht).
    destruct (syncGuiWithModel_synced W) as [Hlen' _].
    apply (balanced_neutral (_syncGuiWithModel W) _ _ Ht);
      [| by rewrite Hlen, Hlen' | by rewrite Hseps | by apply balanced_syncGuiWithModel].
    apply Forall_app. split; [apply fitContentCalls_neutral|].
    apply Forall_app. split; [apply autoScaleCalls_neutral|].
    constructor; [done | apply paintCalls_neutral].
Qed.

Lemma balanced_gui W W' :
  gui W' = gui W → trace W' = trace W → balanced W → balanced W'.
Proof.
  unfold gui, balanced. intros [= Hpw Hsep _] Ht. by rewrite Hpw, Hsep, Ht.
Qed.

Lemma balanced_invalidateHandler m W : balanced W → balanced (_invalidateHandler m W).
Proof.
  destruct (invalidateHandler_gui m W) as (Ht & Hg & _). by apply balanced_gui.
Qed.

Lemma balanced_drawCallback W : balanced W → balanced (drawCallback W).
Proof.
  intros HW. unfold drawCallback. cbn.
  destruct (_invalidateMask (chart W)) as [m|]; cbn; [|done].
  match goal with |- balanced (with_chart _ (_drawImpl m ?W1)) =>
    assert (balanced (_drawImpl m W1)) as HD by (by apply balanced_drawImpl) end.
  revert HD. by apply balanced_gui.
Qed.

Lemma balanced_destroy W : balanced W → balanced (worldOf (destroy W)).
Proof.
  intros [Hw Hs]. unfold destroy. destruct (_element (chart W)) eqn:He; [|done].
  set (W1 := if decide (_drawRafId (chart (emit RemoveWheelListener W)) ≠ 0) then _ else _).
  assert (chart W1 = chart W ∧ trace W1 = trace W ++ [RemoveWheelListener]) as [Hc1 Ht1]
    by (subst W1; by case_decide).
  unfold balanced. cbn. rewrite !chart_foldl_emit, !trace_foldl_emit. cbn.
  rewrite ?chart_foldl_emit, ?trace_foldl_emit. cbn.
  rewrite Hc1, Ht1, !net_app, Hw, Hs, !net_singleton. cbn [widgetDelta separatorDelta].
  assert (∀ pws, net widgetDelta (map PaneWidgetDestroy pws) = - Z.of_nat (length pws) ∧
                 net separatorDelta (map PaneWidgetDestroy pws) = 0) as Hpw.
  { unfold net. induction pws as [|pw pws [IH1 IH2]]; [done|]. cbn. rewrite IH1, IH2. lia. }
  assert (∀ seps, net widgetDelta (map SeparatorDestroy seps) = 0 ∧
                  net separatorDelta (map SeparatorDestroy seps) = - Z.of_nat (length seps))
    as Hsep.
  { unfold net. induction seps as [|sep seps [IH1 IH2]]; [done|]. cbn.
    rewrite IH1, IH2. lia. }
  destruct (Hpw (_paneWidgets (chart W))) as [-> ->].
  destruct (Hsep (_paneSeparators (chart W))) as [-> ->]. cbn. lia.
Qed.

Lemma balanced_step W e : balanced W → balanced (step W e).
Proof.
  intros HW. destruct e as [m | | height width forceRepaint | |]; cbn.
  - by apply balanced_invalidateHandler.
  - unfold runFrame. apply balanced_foldl; [intros; by apply balanced_drawCallback | done].
  - unfold resize. destruct (_ && _); [done|]. cbn.
    destruct (_element (chart W)); [|done].
    assert (balanced (emit (ElementStyleSize height width)
                        (with_chart (set_size height width) W))) as HW1
      by (eapply (balanced_neutral W _ [_]); [reflexivity | by repeat constructor | done..]).
    destruct forceRepaint; cbn.
    + by apply balanced_drawImpl.
    + by apply balanced_invalidateHandler.
  - by apply balanced_invalidateHandler, balanced_adjustSizeImpl.
  - by apply balanced_destroy.
Qed.


End Balance.


(** ** Every draw paints, and a frame draws at most once *)

Lemma timeAxisPaints_app l1 l2 :
  timeAxisPaints (l1 ++ l2) = (timeAxisPaints l1 + timeAxisPaints l2)%nat.
Proof. unfold timeAxisPaints. by rewrite filter_app, length_app. Qed.

Lemma timeAxisPaints_quiet calls :
  Forall (λ e, isPaint e = false) calls → timeAxisPaints calls = 0%nat.
Proof.
  unfold timeAxisPaints. induction 1 as [|e l He _ IH]; [done|].
  rewrite filter_cons. destruct e; try done; by rewrite decide_False.
Qed.

Lemma timeAxisPaints_paintCalls m n : timeAxisPaints (paintCalls m n) = 1%nat.
Proof.
  unfold paintCalls. rewrite timeAxisPaints_app.
  assert (timeAxisPaints
            (map (λ i, PaneWidgetPaint i (level (Mask.invalidateForPane m i))) (seq 0 n))
          = 0%nat) as ->; [|done].
  unfold timeAxisPaints. generalize (seq 0 n). intros l.
  induction l as [|i l IH]; [done|]. cbn [map]. rewrite filter_cons.
  by rewrite decide_False.
Qed.

Lemma fitContentCalls_quiet m : Forall (λ e, isPaint e = false) (fitContentCalls m).
Proof. unfold fitContentCalls. destruct (Mask.getFitContent m); by repeat constructor. Qed.

Lemma autoScaleCalls_quiet m n : Forall (λ e, isPaint e = false) (autoScaleCalls m n).
Proof.
  unfold autoScaleCalls. generalize (seq 0 n). intros l.
  induction l as [|i l IH]; cbn; [constructor|].
  apply Forall_app. split; [|done]. destruct (autoScale _); by repeat constructor.
Qed.

Section Paints.

Context `{Collaborators}.

Lemma drawImpl_paints_last m W :
  ∃ calls,
    trace (_drawImpl m W)
    = trace W ++ calls ++ paintCalls m (length (_paneWidgets (chart (_drawImpl m W)))) ∧
    Forall (λ e, isPaint e = false) calls.
Proof.
  destruct (Mask.fullInvalidation m) eqn:Hl.
  - destruct (drawImpl_None m W Hl) as [-> ->]. exists []. by split.
  - destruct (drawImpl_Light m W Hl) as [-> ->].
    exists (fitContentCalls m ++ [TimeAxisWidgetUpdate]). split; [by rewrite <- !app_assoc|].
    apply Forall_app. split; [apply fitContentCalls_quiet | by repeat constructor].
  - destruct (drawImpl_Full m W Hl) as (-> & _ & ->).
    destruct (quiet_syncGuiWithModel W) as (sync & -> & Hsync).
    exists (sync ++ fitContentCalls m
            ++ autoScaleCalls m (length (panes (_model (chart W))))
            ++ [TimeAxisWidgetUpdate]).
    split; [by rewrite <- !app_assoc|].
    apply Forall_app. split; [done|].
    apply Forall_app. split; [apply fitContentCalls_quiet|].
    apply Forall_app. split; [apply autoScaleCalls_quiet | by repeat constructor].
Qed.

(** X20. Every draw, whatever the severity of its mask (that of severity
    None included), paints each pane widget the chart then holds once, in
    their order, and then the time axis, after everything else it does;
    it changes neither the scheduling state nor, when the severity is not
    Full, the chart. *)
Theorem draw_always_paints_last (m : InvalidateMask) (W : World) :
  (∃ calls,
     trace (_drawImpl m W)
     = trace W ++ calls ++ paintCalls m (length (_paneWidgets (chart (_drawImpl m W)))) ∧
     Forall (λ e, isPaint e = false) calls ∧
     timeAxisPaints (calls ++ paintCalls m (length (_paneWidgets (chart (_drawImpl m W)))))
     = 1%nat) ∧
  control (_drawImpl m W) = control W ∧
  (Mask.fullInvalidation m ≠ InvalidationLevel.Full → chart (_drawImpl m W) = chart W) ∧
  (Mask.fullInvalidation m = InvalidationLevel.None →
   trace (_drawImpl m W) = trace W ++ paintCalls m (length (_paneWidgets (chart W)))).
Proof.
  split_and!.
  - destruct (drawImpl_paints_last m W) as (calls & Ht & Hq).
    exists calls. split_and!; [done | done |].
    by rewrite timeAxisPaints_app, timeAxisPaints_quiet, timeAxisPaints_paintCalls.
  - apply control_drawImpl.
  - intros Hl. destruct (Mask.fullInvalidation m) eqn:E; [| |done].
    + by destruct (drawImpl_None m W E).
    + by destruct (drawImpl_Light m W E).
  - intros Hl. by destruct (drawImpl_None m W Hl).
Qed.

(** X21. An animation frame draws at most once: in every world the
    controller can reach, a frame paints the time axis once if a paint was
    outstanding, and calls nothing at all if none was. *)
Theorem frame_paints_at_most_once (W : World) :
  reachable W →
  ∃ calls,
    trace (runFrame W) = trace W ++ calls ∧
    timeAxisPaints calls = (if decide (raf_pending (window W) = []) then 0 else 1)%nat ∧
    (raf_pending (window W) = [] → runFrame W = W).
Proof.
  intros HW. apply reachable_scheduled_ok in HW.
  destruct (ok_pending W HW) as [Hq | (Hp & Hq & Hlt)].
  - exists []. rewrite runFrame_nothing_due by done.
    rewrite decide_True by done. by rewrite app_nil_r.
  - destruct (ok_planned W HW Hp) as [m Hm].
    rewrite (runFrame_one m) by done. cbn.
    destruct (drawImpl_paints_last m (callbackStart W)) as (calls & -> & Hquiet).
    eexists. split; [reflexivity|].
    rewrite decide_False by (by rewrite Hq).
    split; [|by rewrite Hq].
    by rewrite timeAxisPaints_app, timeAxisPaints_quiet, timeAxisPaints_paintCalls.
Qed.

End Paints.

(** The frame after the construction of the sample chart paints the time
    axis once. *)
Lemma frame_paints_at_most_once_witness :
  ∃ calls,
    trace (runFrame (H := demoCollaborators) demoWorld) = trace demoWorld ++ calls ∧
    timeAxisPaints calls = 1%nat.
Proof.
  destruct (frame_paints_at_most_once (H := demoCollaborators) demoWorld)
    as (calls & Ht & Hn & _).
  - by apply (reachable_construct (H := demoCollaborators)).
  - exists calls. exact (conj Ht Hn).
Defined.
